(** * The game-room coordinator of [index.js]

    A shallow embedding of the socket handlers of [src/index.js] and the
    properties of the room registry and of the per-room state machine.

    Conventions of the embedding.
    - [gameRooms], [scores], [votes] and [voteCounts] are JS objects used as
      maps from strings; they are [gmap string _].  Property enumeration
      order is not modelled, so every statement about [Object.keys] /
      [Object.values] results is up to membership, and keys are taken not to
      be names inherited from [Object.prototype].
    - arrays ([players], [prompts], [captions]) are lists, [push] appends.
    - [socket.id] is the first argument of every handler.
    - numbers that the code only counts with are [nat]; [round] is a [Z];
      a score is a [jsnum], because [undefined + 1] is [NaN] in JS.
    - what a handler emits with [io.to(roomCode).emit] is a list of [Event],
      what it passes to [callback] is an [option Ack] ([None]: the callback
      is not called, or the handler has none).
    - payload fields ([roomCode], [playerName], [prompt], [caption],
      [votedCaptionId]) are strings; [votedCaptionId] is used as a property
      key, which JS turns into a string anyway.
    - [Math.random] is an oracle argument of the handlers that call it.
    - [socket.join] only decides who receives a broadcast and is left out;
      an [Event] carries the code of the room it is sent to. *)

From Stdlib Require Import ZArith Ascii String.
From stdpp Require Import gmap strings list fin_maps.

(** ** Data model *)

Inductive Phase :=
  | waiting
  | promptSubmission
  | captionSubmission
  | voting
  | result.

#[global] Instance Phase_eq_dec : EqDecision Phase.
Proof. solve_decision. Defined.

(** A JS number as it occurs in [room.scores]: an integer, or [NaN]. *)
Inductive jsnum :=
  | Num (z : Z)
  | NaN.

#[global] Instance jsnum_eq_dec : EqDecision jsnum.
Proof. solve_decision. Defined.

(** [{ id: socket.id, name: playerName }] *)
Record Player := mkPlayer { player_id : string; player_name : string }.

(** [{ id: socket.id, prompt }] *)
Record PromptEntry := mkPrompt { prompt_id : string; prompt_text : string }.

(** [{ id: socket.id, caption }] *)
Record CaptionEntry := mkCaption { caption_id : string; caption_text : string }.

#[global] Instance Player_eq_dec : EqDecision Player.
Proof. solve_decision. Defined.
#[global] Instance PromptEntry_eq_dec : EqDecision PromptEntry.
Proof. solve_decision. Defined.
#[global] Instance CaptionEntry_eq_dec : EqDecision CaptionEntry.
Proof. solve_decision. Defined.

Record GameState := mkGameState {
  phase : Phase;
  round : Z;
  prompts : list PromptEntry;
  imageUrl : string;
  captions : list CaptionEntry;
  votes : gmap string string;
}.

Record Room := mkRoom {
  host : string;
  players : list Player;
  gameState : GameState;
  scores : gmap string jsnum;
}.

#[global] Instance GameState_eq_dec : EqDecision GameState.
Proof. solve_decision. Defined.
#[global] Instance Room_eq_dec : EqDecision Room.
Proof. solve_decision. Defined.

(** Broadcasts to the sockets of a room. *)
Inductive Event :=
  | updatePlayers (roomCode : string) (ps : list Player)
  | phaseChange (roomCode : string) (ph : Phase)
  | imageGenerated (roomCode : string) (url : string)
  | captionsReady (roomCode : string) (cs : list CaptionEntry)
  | roundResult (roomCode : string) (winners : list string)
      (sc : gmap string jsnum).

#[global] Instance Event_eq_dec : EqDecision Event.
Proof. solve_decision. Defined.

(** What a handler passes to its [callback]. *)
Inductive Ack :=
  | AckRoomCode (roomCode : string)
  | AckJoin (success : bool) (message : option string)
  | AckGameState (gs : GameState) (ps : list Player).

Record Outcome := mkOutcome {
  rooms_after : gmap string Room;
  emitted : list Event;
  ack : option Ack;
}.

(** Field updates, as the assignments of the source perform them. *)
Definition set_phase (ph : Phase) (gs : GameState) : GameState :=
  mkGameState ph (round gs) (prompts gs) (imageUrl gs) (captions gs) (votes gs).
Definition set_prompts (ps : list PromptEntry) (gs : GameState) : GameState :=
  mkGameState (phase gs) (round gs) ps (imageUrl gs) (captions gs) (votes gs).
Definition set_imageUrl (u : string) (gs : GameState) : GameState :=
  mkGameState (phase gs) (round gs) (prompts gs) u (captions gs) (votes gs).
Definition set_captions (cs : list CaptionEntry) (gs : GameState) : GameState :=
  mkGameState (phase gs) (round gs) (prompts gs) (imageUrl gs) cs (votes gs).
Definition set_votes (vs : gmap string string) (gs : GameState) : GameState :=
  mkGameState (phase gs) (round gs) (prompts gs) (imageUrl gs) (captions gs) vs.
Definition set_gameState (gs : GameState) (room : Room) : Room :=
  mkRoom (host room) (players room) gs (scores room).

(** ** Helper functions of the source *)

(** [String.prototype.toUpperCase] on the characters base 36 produces. *)
Definition upper_ascii (c : ascii) : ascii :=
  let n := nat_of_ascii c in
  if (97 <=? n)%nat && (n <=? 122)%nat then ascii_of_nat (n - 32) else c.

Fixpoint toUpperCase (s : string) : string :=
  match s with
  | EmptyString => EmptyString
  | String c s' => String (upper_ascii c) (toUpperCase s')
  end.

(** [Math.random().toString(36).substring(2, 7).toUpperCase()]; the oracle
    [random36] is the string [Math.random().toString(36)]. *)
Definition generateRoomCode (random36 : string) : string :=
  toUpperCase (substring 2 5 random36).

(** The placeholder of the source: every prompt gets the same address, and
    the promise never rejects. *)
Definition generateAIImage (prompt : string) : string :=
  "https://example.com/generated-image.png".

(** The room [createGame] stores. *)
Definition newRoom (socket_id : string) : Room :=
  mkRoom socket_id [] (mkGameState waiting 1 [] "" [] ∅) ∅.

(** [const room = gameRooms[roomCode]; if (room) { ... }]: the body mutates
    the room found under [roomCode] in place; without a room nothing
    happens. *)
Definition withRoom (roomCode : string) (body : Room → Room * list Event)
    (gameRooms : gmap string Room) : Outcome :=
  match gameRooms !! roomCode with
  | Some room =>
      let '(room', evs) := body room in
      mkOutcome (<[roomCode := room']> gameRooms) evs None
  | None => mkOutcome gameRooms [] None
  end.

(** ** Handlers *)

Definition createGame (socket_id random36 : string)
    (gameRooms : gmap string Room) : Outcome :=
  let roomCode := generateRoomCode random36 in
  mkOutcome (<[roomCode := newRoom socket_id]> gameRooms) []
    (Some (AckRoomCode roomCode)).

Definition joinRoom (socket_id playerName : string) (room : Room) : Room :=
  mkRoom (host room) (players room ++ [mkPlayer socket_id playerName])
    (gameState room) (<[socket_id := Num 0]> (scores room)).

Definition joinGame (socket_id roomCode playerName : string)
    (gameRooms : gmap string Room) : Outcome :=
  match gameRooms !! roomCode with
  | Some room =>
      let room' := joinRoom socket_id playerName room in
      mkOutcome (<[roomCode := room']> gameRooms)
        [updatePlayers roomCode (players room')]
        (Some (AckJoin true None))
  | None =>
      mkOutcome gameRooms [] (Some (AckJoin false (Some "Room not found.")))
  end.

Definition startRoom (socket_id roomCode : string) (room : Room)
    : Room * list Event :=
  if decide (socket_id = host room) then
    (set_gameState (set_phase promptSubmission (gameState room)) room,
     [phaseChange roomCode promptSubmission])
  else (room, []).

Definition startGame (socket_id roomCode : string)
    (gameRooms : gmap string Room) : Outcome :=
  withRoom roomCode (startRoom socket_id roomCode) gameRooms.

(** [pick] is the oracle behind [Math.random()]:
    [Math.floor(Math.random() * length)] is some index below [length], here
    [pick mod length].  The chosen text only feeds [generateAIImage].  The
    [await] resumes in a microtask, before any other socket event is
    dispatched, so the handler is one step. *)
Definition submitPromptRoom (socket_id roomCode prompt : string) (pick : nat)
    (room : Room) : Room * list Event :=
  let gs := gameState room in
  let prompts' := prompts gs ++ [mkPrompt socket_id prompt] in
  let gs1 := set_prompts prompts' gs in
  if decide (length prompts' = length (players room)) then
    let selectedPrompt :=
      from_option prompt_text "" (prompts' !! (pick mod length prompts')) in
    let url := generateAIImage selectedPrompt in
    (set_gameState (set_phase captionSubmission (set_imageUrl url gs1)) room,
     [imageGenerated roomCode url; phaseChange roomCode captionSubmission])
  else (set_gameState gs1 room, []).

Definition submitPrompt (socket_id roomCode prompt : string) (pick : nat)
    (gameRooms : gmap string Room) : Outcome :=
  withRoom roomCode (submitPromptRoom socket_id roomCode prompt pick) gameRooms.

Definition submitCaptionRoom (socket_id roomCode caption : string)
    (room : Room) : Room * list Event :=
  let gs := gameState room in
  let captions' := captions gs ++ [mkCaption socket_id caption] in
  let gs1 := set_captions captions' gs in
  if decide (length captions' = length (players room)) then
    (set_gameState (set_phase voting gs1) room,
     [captionsReady roomCode captions'; phaseChange roomCode voting])
  else (set_gameState gs1 room, []).

Definition submitCaption (socket_id roomCode caption : string)
    (gameRooms : gmap string Room) : Outcome :=
  withRoom roomCode (submitCaptionRoom socket_id roomCode caption) gameRooms.

Definition getGameState (roomCode : string) (gameRooms : gmap string Room)
    : Outcome :=
  match gameRooms !! roomCode with
  | Some room =>
      mkOutcome gameRooms [] (Some (AckGameState (gameState room) (players room)))
  | None => mkOutcome gameRooms [] None
  end.

(** [voteCounts[vote] = (voteCounts[vote] || 0) + 1] *)
Definition countVote (voteCounts : gmap string nat) (vote : string)
    : gmap string nat :=
  <[vote := default 0 (voteCounts !! vote) + 1]> voteCounts.

(** The [for (let vote of ...)] loop over the values of [votes]. *)
Definition tallyVotes (values : list string) : gmap string nat :=
  foldl countVote ∅ values.

(** [Math.max(...Object.values(voteCounts))].  The handler has just stored a
    vote, so the list is never empty there (JS gives [-Infinity] for it). *)
Definition maxVotes (voteCounts : gmap string nat) : nat :=
  max_list (map_to_list voteCounts).*2.

(** [Object.keys(voteCounts).filter((key) => voteCounts[key] === maxVotes)] *)
Definition winnersOf (voteCounts : gmap string nat) : list string :=
  filter (λ key, voteCounts !! key = Some (maxVotes voteCounts))
    (map_to_list voteCounts).*1.

(** [x + 1] for [x = room.scores[winnerId]], which may be [undefined]. *)
Definition plusOne (x : option jsnum) : jsnum :=
  match x with
  | Some (Num n) => Num (n + 1)
  | Some NaN => NaN
  | None => NaN
  end.

(** [room.scores[winnerId] += 1] *)
Definition addPoint (sc : gmap string jsnum) (winnerId : string)
    : gmap string jsnum :=
  <[winnerId := plusOne (sc !! winnerId)]> sc.

(** The reset that [setTimeout] schedules ten seconds after a tally is a
    step of its own, [resetRound]; when it runs is not modelled. *)
Definition submitVoteRoom (socket_id roomCode votedCaptionId : string)
    (room : Room) : Room * list Event :=
  let gs := gameState room in
  let votes' := <[socket_id := votedCaptionId]> (votes gs) in
  let gs1 := set_votes votes' gs in
  if decide (size votes' = length (players room)) then
    let voteCounts := tallyVotes (map_to_list votes').*2 in
    let winners := winnersOf voteCounts in
    let scores' := foldl addPoint (scores room) winners in
    (mkRoom (host room) (players room) (set_phase result gs1) scores',
     [roundResult roomCode winners scores'; phaseChange roomCode result])
  else (set_gameState gs1 room, []).

Definition submitVote (socket_id roomCode votedCaptionId : string)
    (gameRooms : gmap string Room) : Outcome :=
  withRoom roomCode (submitVoteRoom socket_id roomCode votedCaptionId) gameRooms.

(** The body of the [setTimeout] callback. *)
Definition resetRound (room : Room) : Room :=
  let gs := gameState room in
  set_gameState (mkGameState promptSubmission (round gs + 1) [] "" [] ∅) room.

(** One turn of the [for (let roomCode in gameRooms)] loop of [disconnect],
    up to the broadcast. *)
Definition leaveRoom (socket_id : string) (room : Room) : Room :=
  let players' := filter (λ player, player_id player ≠ socket_id) (players room) in
  let scores' := delete socket_id (scores room) in
  let host' :=
    match players' with
    | first :: _ => if decide (host room = socket_id) then player_id first
                    else host room
    | [] => host room
    end in
  mkRoom host' players' (gameState room) scores'.

(** The end of the turn: [if (room.players.length === 0) delete ...]. *)
Definition keepRoom (room : Room) : option Room :=
  if decide (length (players room) = 0) then None else Some room.

(** The turns are independent of each other, so the loop is a map over the
    registry; each room, kept or not, gets one [updatePlayers].  The list of
    broadcasts follows [map_to_list], not the enumeration order of JS. *)
Definition disconnect (socket_id : string) (gameRooms : gmap string Room)
    : Outcome :=
  mkOutcome
    (omap (λ room, keepRoom (leaveRoom socket_id room)) gameRooms)
    ((λ entry, updatePlayers entry.1 (players (leaveRoom socket_id entry.2)))
       <$> map_to_list gameRooms)
    None.

(** ** The server as a transition system *)

Inductive Request :=
  | CreateGame (socket_id random36 : string)
  | JoinGame (socket_id roomCode playerName : string)
  | StartGame (socket_id roomCode : string)
  | SubmitPrompt (socket_id roomCode prompt : string) (pick : nat)
  | SubmitCaption (socket_id roomCode caption : string)
  | GetGameState (socket_id roomCode : string)
  | SubmitVote (socket_id roomCode votedCaptionId : string)
  | Disconnect (socket_id : string).

Definition handle (req : Request) (gameRooms : gmap string Room) : Outcome :=
  match req with
  | CreateGame s r => createGame s r gameRooms
  | JoinGame s c n => joinGame s c n gameRooms
  | StartGame s c => startGame s c gameRooms
  | SubmitPrompt s c p k => submitPrompt s c p k gameRooms
  | SubmitCaption s c t => submitCaption s c t gameRooms
  | GetGameState _ c => getGameState c gameRooms
  | SubmitVote s c v => submitVote s c v gameRooms
  | Disconnect s => disconnect s gameRooms
  end.

(** The registry after a sequence of requests, oldest first. *)
Definition run (reqs : list Request) (gameRooms : gmap string Room)
    : gmap string Room :=
  foldl (λ rooms req, rooms_after (handle req rooms)) gameRooms reqs.

(** ** Notions used in the statements *)

(** The connection ids of the players of a room, in join order. *)
Definition player_ids (room : Room) : list string :=
  player_id <$> players room.

(** How often [target] was voted for. *)
Definition votesFor (target : string) (values : list string) : nat :=
  length (filter (λ vote, vote = target) values).

(** The phase of the room stored under [roomCode], if there is one. *)
Definition phaseOf (roomCode : string) (gameRooms : gmap string Room)
    : option Phase :=
  phase ∘ gameState <$> gameRooms !! roomCode.

(** A handler run has switched the phase of [roomCode] to [ph] when it
    broadcast the [phaseChange]. *)
Definition switchedTo (roomCode : string) (ph : Phase) (out : Outcome) : Prop :=
  phaseChange roomCode ph ∈ emitted out.

(** The entries of [prompts] that [socket_id] submitted. *)
Definition promptsOf (socket_id : string) (ps : list PromptEntry)
    : list PromptEntry :=
  filter (λ entry, prompt_id entry = socket_id) ps.

(** A score as the data model wants it: an integer that is not negative. *)
Definition wholeScore (x : jsnum) : Prop :=
  match x with
  | Num n => (0 ≤ n)%Z
  | NaN => False
  end.

(** The keys of [scores] are the ids of the players, and every score is a
    non-negative integer. *)
Definition scores_match (room : Room) : Prop :=
  dom (scores room) = list_to_set (player_ids room)
  ∧ map_Forall (λ _ x, wholeScore x) (scores room).

(** The votes on record in a room all name players of the room. *)
Definition votes_name_players (room : Room) (vs : gmap string string) : Prop :=
  ∀ voter target, vs !! voter = Some target → target ∈ player_ids room.

(** The request is not a vote that leaves, among the votes on record in its
    room, a target that is not a player of that room. *)
Definition names_players (req : Request) (gameRooms : gmap string Room) : Prop :=
  match req with
  | SubmitVote s c v =>
      ∀ room, gameRooms !! c = Some room →
        votes_name_players room (<[s := v]> (votes (gameState room)))
  | _ => True
  end.

(** The host is one of the players, unless the room has none. *)
Definition host_present (room : Room) : Prop :=
  players room = [] ∨ host room ∈ player_ids room.

(** A join that puts a first player into a room that somebody else hosts. *)
Definition first_join_by_guest (req : Request) (gameRooms : gmap string Room)
    : Prop :=
  match req with
  | JoinGame s c _ =>
      ∃ room, gameRooms !! c = Some room ∧ players room = [] ∧ s ≠ host room
  | _ => False
  end.



(** The entries of [players] that carry the id [socket_id]. *)
Definition entriesOf (socket_id : string) (ps : list Player) : list Player :=
  filter (λ player, player_id player = socket_id) ps.

(** Runs of one kind of request to one room. *)
Definition joinRequests (roomCode : string) (joiners : list (string * string))
    : list Request :=
  (λ j, JoinGame j.1 roomCode j.2) <$> joiners.
Definition promptRequests (roomCode : string)
    (subs : list (string * string * nat)) : list Request :=
  (λ sub, SubmitPrompt sub.1.1 roomCode sub.1.2 sub.2) <$> subs.
Definition captionRequests (roomCode : string) (subs : list (string * string))
    : list Request :=
  (λ sub, SubmitCaption sub.1 roomCode sub.2) <$> subs.
Definition voteRequests (roomCode : string) (subs : list (string * string))
    : list Request :=
  (λ sub, SubmitVote sub.1 roomCode sub.2) <$> subs.

(** Along the run of [reqs] from [gameRooms], no vote names somebody who is
    not a player of its room. *)
Fixpoint well_voted (reqs : list Request) (gameRooms : gmap string Room)
    : Prop :=
  match reqs with
  | [] => True
  | req :: reqs' =>
      names_players req gameRooms
      ∧ well_voted reqs' (rooms_after (handle req gameRooms))
  end.

(** The characters of a number written in base 36, and those of a room code
    made from them. *)
Definition isDigit (c : ascii) : bool :=
  let n := nat_of_ascii c in (48 <=? n)%nat && (n <=? 57)%nat.
Definition isLower (c : ascii) : bool :=
  let n := nat_of_ascii c in (97 <=? n)%nat && (n <=? 122)%nat.
Definition isUpper (c : ascii) : bool :=
  let n := nat_of_ascii c in (65 <=? n)%nat && (n <=? 90)%nat.
Definition base36Digit (c : ascii) : bool := isDigit c || isLower c.
Definition codeChar (c : ascii) : bool := isDigit c || isUpper c.

(** ** The registry under [withRoom] *)

Section WithRoom.
Context (roomCode : string) (body : Room → Room * list Event).
Context (gameRooms : gmap string Room).

Lemma withRoom_here room :
  gameRooms !! roomCode = Some room →
  rooms_after (withRoom roomCode body gameRooms) !! roomCode
    = Some (body room).1
  ∧ emitted (withRoom roomCode body gameRooms) = (body room).2.
Proof.
  intros Hroom. unfold withRoom. rewrite Hroom.
  destruct (body room) as [room' evs]; simpl.
  by rewrite lookup_insert_eq.
Qed.

Lemma withRoom_elsewhere other :
  other ≠ roomCode →
  rooms_after (withRoom roomCode body gameRooms) !! other
    = gameRooms !! other.
Proof.
  intros Hne. unfold withRoom.
  destruct (gameRooms !! roomCode) as [room|] eqn:Hroom; [|done].
  destruct (body room) as [room' evs]; simpl.
  by rewrite lookup_insert_ne.
Qed.

Lemma withRoom_missing :
  gameRooms !! roomCode = None →
  withRoom roomCode body gameRooms = mkOutcome gameRooms [] None.
Proof. intros Hroom. unfold withRoom. by rewrite Hroom. Qed.

Lemma withRoom_ack : ack (withRoom roomCode body gameRooms) = None.
Proof.
  unfold withRoom. destruct (gameRooms !! roomCode) as [room|]; [|done].
  by destruct (body room).
Qed.
End WithRoom.

(** ** The tally *)

Section Tally.
Implicit Types (voteCounts : gmap string nat) (values : list string).

Lemma countVote_default voteCounts vote target :
  default 0 (countVote voteCounts vote !! target)
  = default 0 (voteCounts !! target) + (if decide (vote = target) then 1 else 0).
Proof.
  unfold countVote. case_decide as Heq.
  - subst. by rewrite lookup_insert_eq.
  - rewrite lookup_insert_ne; [lia | done].
Qed.

Lemma foldl_countVote_default values : ∀ voteCounts target,
  default 0 (foldl countVote voteCounts values !! target)
  = default 0 (voteCounts !! target) + votesFor target values.
Proof.
  unfold votesFor.
  induction values as [|vote values IH]; intros voteCounts target; simpl.
  - lia.
  - rewrite IH, countVote_default, filter_cons.
    case_decide; simpl; lia.
Qed.

Lemma foldl_countVote_dom values : ∀ voteCounts target,
  is_Some (foldl countVote voteCounts values !! target)
  ↔ is_Some (voteCounts !! target) ∨ target ∈ values.
Proof.
  induction values as [|vote values IH]; intros voteCounts target; simpl.
  - rewrite elem_of_nil. tauto.
  - rewrite IH, elem_of_cons. unfold countVote.
    destruct (decide (vote = target)) as [->|Hne].
    + rewrite lookup_insert_eq. split; [intros _|intros _; left]; eauto.
    + rewrite lookup_insert_ne by done. intuition congruence.
Qed.

(** [voteCounts] holds, for every target that received a vote, the number
    of votes it received, and nothing else. *)
Lemma tallyVotes_lookup values target n :
  tallyVotes values !! target = Some n
  ↔ target ∈ values ∧ n = votesFor target values.
Proof.
  unfold tallyVotes.
  pose proof (foldl_countVote_default values ∅ target) as Hcount.
  pose proof (foldl_countVote_dom values ∅ target) as Hdom.
  rewrite lookup_empty in Hcount, Hdom. simpl in Hcount.
  split.
  - intros Hn. rewrite Hn in Hcount, Hdom. simpl in Hcount. split; [|done].
    destruct Hdom as [[Hbad|Hin] _]; [by eexists | by destruct Hbad | done].
  - intros [Hin ->]. destruct Hdom as [_ [k Hk]]; [by right|].
    rewrite Hk in Hcount. simpl in Hcount. by rewrite Hk, Hcount.
Qed.


Lemma maxVotes_upper voteCounts key n :
  voteCounts !! key = Some n → n ≤ maxVotes voteCounts.
Proof.
  intros Hkey. unfold maxVotes. apply max_list_elem_of_le.
  apply list_elem_of_fmap. exists (key, n). split; [done|].
  by apply elem_of_map_to_list.
Qed.

Lemma maxVotes_attained voteCounts :
  voteCounts ≠ ∅ → ∃ key, voteCounts !! key = Some (maxVotes voteCounts).
Proof.
  intros Hne. unfold maxVotes.
  assert (Hl : (map_to_list voteCounts).*2 ≠ []).
  { intros Hnil. apply fmap_nil_inv in Hnil.
    by apply map_to_list_empty_iff in Hnil. }
  apply max_list_elem_of in Hl.
  apply list_elem_of_fmap in Hl as [[key n] [Hmax Hin]]. simpl in Hmax.
  exists key. rewrite Hmax. by apply elem_of_map_to_list.
Qed.

Lemma winnersOf_spec voteCounts key :
  key ∈ winnersOf voteCounts
  ↔ voteCounts !! key = Some (maxVotes voteCounts).
Proof.
  unfold winnersOf. rewrite list_elem_of_filter. split; [tauto|].
  intros Hkey. split; [done|].
  apply list_elem_of_fmap. exists (key, maxVotes voteCounts).
  split; [done|]. by apply elem_of_map_to_list.
Qed.


(** The winners are the targets with the most votes: every target that
    was voted for has at most as many votes as a winner has. *)
Lemma winners_are_the_maxima values winner :
  winner ∈ winnersOf (tallyVotes values)
  ↔ winner ∈ values
    ∧ ∀ target, target ∈ values →
        votesFor target values ≤ votesFor winner values.
Proof.
  rewrite winnersOf_spec. split.
  - intros Hw. pose proof Hw as Hw'.
    apply tallyVotes_lookup in Hw' as [Hin Hmax]. split; [done|].
    intros target Htarget. rewrite <- Hmax.
    apply (maxVotes_upper _ target). by apply tallyVotes_lookup.
  - intros [Hin Hall].
    destruct (maxVotes_attained (tallyVotes values)) as [key Hkey].
    { intros Hempty.
      assert (Hsome : tallyVotes values !! winner
                      = Some (votesFor winner values))
        by (by apply tallyVotes_lookup).
      by rewrite Hempty, lookup_empty in Hsome. }
    pose proof Hkey as Hkey'.
    apply tallyVotes_lookup in Hkey' as [Hkin Hkmax].
    assert (Hle : votesFor winner values ≤ maxVotes (tallyVotes values)).
    { apply (maxVotes_upper _ winner). by apply tallyVotes_lookup. }
    specialize (Hall key Hkin).
    apply tallyVotes_lookup. split; [done|]. lia.
Qed.

End Tally.

(** ** The score update *)

Section Scores.
Implicit Types (sc : gmap string jsnum) (winners : list string).


End Scores.

(** ** The next round *)

Lemma resetRound_frame room :
  host (resetRound room) = host room
  ∧ players (resetRound room) = players room
  ∧ scores (resetRound room) = scores room
  ∧ gameState (resetRound room)
    = mkGameState promptSubmission (round (gameState room) + 1) [] "" [] ∅.
Proof. done. Qed.

(** ** Submissions and the phase *)

Section Gates.
Context (socket_id roomCode : string) (gameRooms : gmap string Room).
Context (room : Room) (Hroom : gameRooms !! roomCode = Some room).

Lemma submitPrompt_gate prompt pick :
  let out := submitPrompt socket_id roomCode prompt pick gameRooms in
  let collected := prompts (gameState room) ++ [mkPrompt socket_id prompt] in
  (prompts ∘ gameState <$> rooms_after out !! roomCode) = Some collected
  ∧ (length collected = length (players room) →
       emitted out
       = [imageGenerated roomCode "https://example.com/generated-image.png";
          phaseChange roomCode captionSubmission]
       ∧ phaseOf roomCode (rooms_after out) = Some captionSubmission)
  ∧ (length collected ≠ length (players room) →
       emitted out = []
       ∧ phaseOf roomCode (rooms_after out) = Some (phase (gameState room))).
Proof.
  intros out collected. subst out. unfold submitPrompt, phaseOf.
  destruct (withRoom_here roomCode
              (submitPromptRoom socket_id roomCode prompt pick)
              gameRooms room Hroom) as [-> ->].
  unfold submitPromptRoom. fold collected.
  destruct (decide (length collected = length (players room))); simpl;
    repeat split; intros; done.
Qed.

Lemma submitCaption_gate caption :
  let out := submitCaption socket_id roomCode caption gameRooms in
  let collected := captions (gameState room) ++ [mkCaption socket_id caption] in
  (captions ∘ gameState <$> rooms_after out !! roomCode) = Some collected
  ∧ (length collected = length (players room) →
       emitted out = [captionsReady roomCode collected;
                      phaseChange roomCode voting]
       ∧ phaseOf roomCode (rooms_after out) = Some voting)
  ∧ (length collected ≠ length (players room) →
       emitted out = []
       ∧ phaseOf roomCode (rooms_after out) = Some (phase (gameState room))).
Proof.
  intros out collected. subst out. unfold submitCaption, phaseOf.
  destruct (withRoom_here roomCode
              (submitCaptionRoom socket_id roomCode caption)
              gameRooms room Hroom) as [-> ->].
  unfold submitCaptionRoom. fold collected.
  destruct (decide (length collected = length (players room))); simpl;
    repeat split; intros; done.
Qed.

Lemma submitVote_gate votedCaptionId :
  let out := submitVote socket_id roomCode votedCaptionId gameRooms in
  let collected := <[socket_id := votedCaptionId]> (votes (gameState room)) in
  (votes ∘ gameState <$> rooms_after out !! roomCode) = Some collected
  ∧ (size collected = length (players room) →
       switchedTo roomCode result out
       ∧ phaseOf roomCode (rooms_after out) = Some result)
  ∧ (size collected ≠ length (players room) →
       emitted out = []
       ∧ phaseOf roomCode (rooms_after out) = Some (phase (gameState room))).
Proof.
  intros out collected. subst out. unfold submitVote, phaseOf, switchedTo.
  destruct (withRoom_here roomCode
              (submitVoteRoom socket_id roomCode votedCaptionId)
              gameRooms room Hroom) as [-> ->].
  unfold submitVoteRoom. fold collected.
  destruct (decide (size collected = length (players room))); simpl;
    repeat split; intros; try done.
  apply list_elem_of_further, list_elem_of_here.
Qed.
End Gates.

(** C1, as the code has it: each of [submitPrompt], [submitCaption] and
    [submitVote] switches the phase (to [captionSubmission], [voting] and
    [result]) if and only if its own collection, with the submission
    recorded, has as many entries as the room has players at that moment;
    otherwise the phase stays what it was.  The gate belongs to the handler,
    not to the phase the room is in.  In particular [submitPrompt] leaves the
    phase alone while fewer prompts than players are collected. *)
Theorem submission_gates
    (socket_id roomCode prompt caption votedCaptionId : string) (pick : nat)
    (gameRooms : gmap string Room) (room : Room) :
  gameRooms !! roomCode = Some room →
  let count := length (players room) in
  let before := phase (gameState room) in
  let nprompts := length (prompts (gameState room) ++ [mkPrompt socket_id prompt]) in
  let ncaptions := length (captions (gameState room) ++ [mkCaption socket_id caption]) in
  let nvotes := size (<[socket_id := votedCaptionId]> (votes (gameState room))) in
  let outP := submitPrompt socket_id roomCode prompt pick gameRooms in
  let outC := submitCaption socket_id roomCode caption gameRooms in
  let outV := submitVote socket_id roomCode votedCaptionId gameRooms in
  (switchedTo roomCode captionSubmission outP ↔ nprompts = count)
  ∧ phaseOf roomCode (rooms_after outP)
    = Some (if decide (nprompts = count) then captionSubmission else before)
  ∧ (switchedTo roomCode voting outC ↔ ncaptions = count)
  ∧ phaseOf roomCode (rooms_after outC)
    = Some (if decide (ncaptions = count) then voting else before)
  ∧ (switchedTo roomCode result outV ↔ nvotes = count)
  ∧ phaseOf roomCode (rooms_after outV)
    = Some (if decide (nvotes = count) then result else before)
  ∧ (nprompts < count → phaseOf roomCode (rooms_after outP) = Some before).
Proof.
  intros Hroom count before nprompts ncaptions nvotes outP outC outV.
  destruct (submitPrompt_gate socket_id roomCode gameRooms room Hroom prompt pick)
    as (_ & HPyes & HPno).
  destruct (submitCaption_gate socket_id roomCode gameRooms room Hroom caption)
    as (_ & HCyes & HCno).
  destruct (submitVote_gate socket_id roomCode gameRooms room Hroom votedCaptionId)
    as (_ & HVyes & HVno).
  fold count nprompts outP in HPyes, HPno.
  fold count ncaptions outC in HCyes, HCno.
  fold count nvotes outV in HVyes, HVno.
  unfold switchedTo.
  repeat split.
  - intros Hin. destruct (decide (nprompts = count)) as [|Hne]; [done|].
    destruct (HPno Hne) as [Hnil _]. rewrite Hnil in Hin.
    by apply elem_of_nil in Hin.
  - intros Heq. destruct (HPyes Heq) as [-> _].
    apply list_elem_of_further, list_elem_of_here.
  - case_decide as Hd; [by destruct (HPyes Hd) | by destruct (HPno Hd)].
  - intros Hin. destruct (decide (ncaptions = count)) as [|Hne]; [done|].
    destruct (HCno Hne) as [Hnil _]. rewrite Hnil in Hin.
    by apply elem_of_nil in Hin.
  - intros Heq. destruct (HCyes Heq) as [-> _].
    apply list_elem_of_further, list_elem_of_here.
  - case_decide as Hd; [by destruct (HCyes Hd) | by destruct (HCno Hd)].
  - intros Hin. destruct (decide (nvotes = count)) as [|Hne]; [done|].
    destruct (HVno Hne) as [Hnil _]. rewrite Hnil in Hin.
    by apply elem_of_nil in Hin.
  - intros Heq. by destruct (HVyes Heq).
  - case_decide as Hd; [by destruct (HVyes Hd) | by destruct (HVno Hd)].
  - intros Hlt. apply HPno. lia.
Qed.

(** A room of three players, one of whom submits a prompt. *)
Lemma submission_gates_witness :
  let gameRooms :=
    run [CreateGame "h" "0.abcdefgh1jk"; JoinGame "h" "ABCDE" "Hana";
         JoinGame "a" "ABCDE" "Ann"; JoinGame "b" "ABCDE" "Bob";
         StartGame "h" "ABCDE"] ∅ in
  phaseOf "ABCDE" (rooms_after (submitPrompt "a" "ABCDE" "a cat" 0 gameRooms))
  = Some promptSubmission.
Proof.
  intros gameRooms.
  assert (Hroom : gameRooms !! "ABCDE"
                  = Some (mkRoom "h"
                            [mkPlayer "h" "Hana"; mkPlayer "a" "Ann";
                             mkPlayer "b" "Bob"]
                            (mkGameState promptSubmission 1 [] "" [] ∅)
                            (<["b" := Num 0]> (<["a" := Num 0]>
                               (<["h" := Num 0]> ∅)))))
    by (vm_compute; reflexivity).
  destruct (submission_gates "a" "ABCDE" "a cat" "" "" 0 gameRooms _ Hroom)
    as (_ & _ & _ & _ & _ & _ & Hbelow).
  apply Hbelow. simpl. lia.
Defined.

(** C1 fails as stated: a room in [promptSubmission] with one player and no
    prompt collected goes to [voting] when that player submits a caption. *)
Lemma caption_leaves_promptSubmission :
  let before :=
    run [CreateGame "h" "0.abcdefgh1jk"; JoinGame "h" "ABCDE" "Hana";
         StartGame "h" "ABCDE"] ∅ in
  let after := rooms_after (submitCaption "h" "ABCDE" "a caption" before) in
  phaseOf "ABCDE" before = Some promptSubmission
  ∧ (length ∘ prompts ∘ gameState <$> before !! "ABCDE") = Some 0
  ∧ (length ∘ players <$> before !! "ABCDE") = Some 1
  ∧ (length ∘ prompts ∘ gameState <$> after !! "ABCDE") = Some 0
  ∧ phaseOf "ABCDE" after = Some voting.
Proof. vm_compute. repeat split. Qed.

(** C9: none of the three submission handlers looks at the phase.  Put the
    room under [roomCode] in any phase [ph]: the submission is recorded, and
    the phase moves on exactly when the collection has reached the player
    count, so with [ph = waiting] captions take the room straight to
    [voting]. *)
Theorem submissions_ignore_phase
    (ph : Phase) (socket_id roomCode prompt caption votedCaptionId : string)
    (pick : nat) (gameRooms : gmap string Room) (room : Room) :
  let room_ph := set_gameState (set_phase ph (gameState room)) room in
  let rooms_ph := <[roomCode := room_ph]> gameRooms in
  let count := length (players room) in
  let prompts' := prompts (gameState room) ++ [mkPrompt socket_id prompt] in
  let captions' := captions (gameState room) ++ [mkCaption socket_id caption] in
  let votes' := <[socket_id := votedCaptionId]> (votes (gameState room)) in
  let outP := submitPrompt socket_id roomCode prompt pick rooms_ph in
  let outC := submitCaption socket_id roomCode caption rooms_ph in
  let outV := submitVote socket_id roomCode votedCaptionId rooms_ph in
  (prompts ∘ gameState <$> rooms_after outP !! roomCode) = Some prompts'
  ∧ phaseOf roomCode (rooms_after outP)
    = Some (if decide (length prompts' = count) then captionSubmission else ph)
  ∧ (captions ∘ gameState <$> rooms_after outC !! roomCode) = Some captions'
  ∧ phaseOf roomCode (rooms_after outC)
    = Some (if decide (length captions' = count) then voting else ph)
  ∧ (votes ∘ gameState <$> rooms_after outV !! roomCode) = Some votes'
  ∧ phaseOf roomCode (rooms_after outV)
    = Some (if decide (size votes' = count) then result else ph).
Proof.
  intros room_ph rooms_ph count prompts' captions' votes' outP outC outV.
  assert (Hroom : rooms_ph !! roomCode = Some room_ph)
    by apply lookup_insert_eq.
  destruct (submitPrompt_gate socket_id roomCode rooms_ph room_ph Hroom prompt pick)
    as (HP & HPyes & HPno).
  destruct (submitCaption_gate socket_id roomCode rooms_ph room_ph Hroom caption)
    as (HC & HCyes & HCno).
  destruct (submitVote_gate socket_id roomCode rooms_ph room_ph Hroom votedCaptionId)
    as (HV & HVyes & HVno).
  simpl in *.
  fold count prompts' outP in HP, HPyes, HPno.
  fold count captions' outC in HC, HCyes, HCno.
  fold count votes' outV in HV, HVyes, HVno.
  repeat split; try done.
  - case_decide as Hd; [by destruct (HPyes Hd) | by destruct (HPno Hd)].
  - case_decide as Hd; [by destruct (HCyes Hd) | by destruct (HCno Hd)].
  - case_decide as Hd; [by destruct (HVyes Hd) | by destruct (HVno Hd)].
Qed.

(** The instance of C9 that the claim names: a caption in [waiting]. *)
Example caption_in_waiting_opens_voting :
  let before :=
    run [CreateGame "h" "0.abcdefgh1jk"; JoinGame "h" "ABCDE" "Hana"] ∅ in
  phaseOf "ABCDE" before = Some waiting
  ∧ phaseOf "ABCDE" (rooms_after (submitCaption "h" "ABCDE" "early" before))
    = Some voting.
Proof. vm_compute. split; reflexivity. Qed.

(** ** Starting a game *)

(** C4, as the code has it: [startGame] acts exactly when the room exists
    and the requester is its host, whatever the phase: the phase becomes
    [promptSubmission], the rest of the room stays, and the change is
    broadcast.  For any other requester the registry is unchanged, nothing
    is emitted and no callback is called. *)
Theorem startGame_host_only
    (socket_id roomCode : string) (gameRooms : gmap string Room) (room : Room) :
  gameRooms !! roomCode = Some room →
  let out := startGame socket_id roomCode gameRooms in
  ack out = None
  ∧ (socket_id = host room →
       rooms_after out
       = <[roomCode := mkRoom (host room) (players room)
                         (set_phase promptSubmission (gameState room))
                         (scores room)]> gameRooms
       ∧ emitted out = [phaseChange roomCode promptSubmission])
  ∧ (socket_id ≠ host room →
       rooms_after out = gameRooms ∧ emitted out = []).
Proof.
  intros Hroom out. subst out. unfold startGame.
  split; [apply withRoom_ack|].
  unfold withRoom, startRoom. rewrite Hroom.
  destruct (decide (socket_id = host room)) as [Heq|Hne]; simpl.
  - split; [done | intros Hne; by destruct Hne].
  - split; [intros Heq; by destruct Hne |].
    intros _. split; [by apply insert_id | done].
Qed.

(** The host restarts a room that is in [voting]. *)
Lemma startGame_host_only_witness :
  let gameRooms :=
    run [CreateGame "h" "0.abcdefgh1jk"; JoinGame "h" "ABCDE" "Hana";
         SubmitCaption "h" "ABCDE" "a caption"] ∅ in
  emitted (startGame "h" "ABCDE" gameRooms)
  = [phaseChange "ABCDE" promptSubmission].
Proof.
  intros gameRooms.
  assert (Hroom : gameRooms !! "ABCDE"
                  = Some (mkRoom "h" [mkPlayer "h" "Hana"]
                            (mkGameState voting 1 [] ""
                               [mkCaption "h" "a caption"] ∅)
                            (<["h" := Num 0]> ∅)))
    by (vm_compute; reflexivity).
  destruct (startGame_host_only "h" "ABCDE" gameRooms _ Hroom)
    as (_ & Hhost & _).
  apply Hhost. reflexivity.
Defined.

(** C4 fails as stated: the phase is [voting], not [waiting], and the host's
    [startGame] still changes the room. *)
Lemma startGame_outside_waiting :
  let before :=
    run [CreateGame "h" "0.abcdefgh1jk"; JoinGame "h" "ABCDE" "Hana";
         SubmitCaption "h" "ABCDE" "a caption"] ∅ in
  let after := rooms_after (startGame "h" "ABCDE" before) in
  phaseOf "ABCDE" before = Some voting
  ∧ phaseOf "ABCDE" after = Some promptSubmission
  ∧ after ≠ before.
Proof.
  vm_compute. repeat split. intros Heq. discriminate Heq.
Qed.

(** ** Prompts *)

(** C5, as the code has it: [submitPrompt] pushes.  The new entry goes to
    the end of [prompts], every earlier entry stays where it was, and the
    number of entries of the submitting connection grows by one, so a second
    submission adds a second entry. *)
Theorem submitPrompt_appends
    (socket_id roomCode prompt : string) (pick : nat)
    (gameRooms : gmap string Room) (room : Room) :
  gameRooms !! roomCode = Some room →
  ∃ room',
    rooms_after (submitPrompt socket_id roomCode prompt pick gameRooms)
      !! roomCode = Some room'
    ∧ prompts (gameState room')
      = prompts (gameState room) ++ [mkPrompt socket_id prompt]
    ∧ length (promptsOf socket_id (prompts (gameState room')))
      = S (length (promptsOf socket_id (prompts (gameState room)))).
Proof.
  intros Hroom.
  destruct (withRoom_here roomCode
              (submitPromptRoom socket_id roomCode prompt pick)
              gameRooms room Hroom) as [Hlook _].
  eexists. split; [exact Hlook|].
  assert (Hp : prompts (gameState
                 (submitPromptRoom socket_id roomCode prompt pick room).1)
               = prompts (gameState room) ++ [mkPrompt socket_id prompt]).
  { unfold submitPromptRoom. by case_decide. }
  split; [exact Hp|].
  rewrite Hp. unfold promptsOf.
  rewrite filter_app, length_app, filter_cons. simpl.
  rewrite decide_True by done. simpl. lia.
Qed.

(** A second prompt of the same connection in a room of three. *)
Lemma submitPrompt_appends_witness :
  let gameRooms :=
    run [CreateGame "h" "0.abcdefgh1jk"; JoinGame "h" "ABCDE" "Hana";
         JoinGame "a" "ABCDE" "Ann"; JoinGame "b" "ABCDE" "Bob";
         SubmitPrompt "a" "ABCDE" "a cat" 0] ∅ in
  ∃ room',
    rooms_after (submitPrompt "a" "ABCDE" "a dog" 0 gameRooms) !! "ABCDE"
      = Some room'
    ∧ prompts (gameState room')
      = [mkPrompt "a" "a cat"] ++ [mkPrompt "a" "a dog"]
    ∧ length (promptsOf "a" (prompts (gameState room'))) = 2.
Proof.
  intros gameRooms.
  assert (Hroom : gameRooms !! "ABCDE"
                  = Some (mkRoom "h"
                            [mkPlayer "h" "Hana"; mkPlayer "a" "Ann";
                             mkPlayer "b" "Bob"]
                            (mkGameState waiting 1 [mkPrompt "a" "a cat"] ""
                               [] ∅)
                            (<["b" := Num 0]> (<["a" := Num 0]>
                               (<["h" := Num 0]> ∅)))))
    by (vm_compute; reflexivity).
  exact (submitPrompt_appends "a" "ABCDE" "a dog" 0 gameRooms _ Hroom).
Defined.

(** C5 fails as stated: after two prompts of connection ["a"] the room
    holds two entries of ["a"], the first text still among them. *)
Lemma resubmitted_prompt_is_kept :
  (prompts ∘ gameState <$>
     run [CreateGame "h" "0.abcdefgh1jk"; JoinGame "h" "ABCDE" "Hana";
          JoinGame "a" "ABCDE" "Ann"; JoinGame "b" "ABCDE" "Bob";
          StartGame "h" "ABCDE";
          SubmitPrompt "a" "ABCDE" "a cat" 0;
          SubmitPrompt "a" "ABCDE" "a dog" 0] ∅ !! "ABCDE")
  = Some [mkPrompt "a" "a cat"; mkPrompt "a" "a dog"].
Proof. vm_compute. reflexivity. Qed.

(** ** Creating a room *)

(** C7, as the code has it: [createGame] answers with the code that
    [generateRoomCode] produced and stores under it a new room, in
    [waiting], round 1, without players or scores, hosted by the caller.
    Rooms under every other code are untouched.  The code is not compared
    with the live ones: when it is fresh no existing room changes, and when
    it is not, the room it names is replaced.  The registry is a map, so it
    never holds two rooms under one code. *)
Theorem createGame_inserts
    (socket_id random36 : string) (gameRooms : gmap string Room) :
  let roomCode := generateRoomCode random36 in
  let out := createGame socket_id random36 gameRooms in
  ack out = Some (AckRoomCode roomCode)
  ∧ emitted out = []
  ∧ rooms_after out !! roomCode
    = Some (mkRoom socket_id [] (mkGameState waiting 1 [] "" [] ∅) ∅)
  ∧ (∀ other, other ≠ roomCode →
       rooms_after out !! other = gameRooms !! other)
  ∧ (gameRooms !! roomCode = None →
       ∀ other room, gameRooms !! other = Some room →
         rooms_after out !! other = Some room).
Proof.
  intros roomCode out. subst out. unfold createGame. fold roomCode. simpl.
  repeat split.
  - apply lookup_insert_eq.
  - intros other Hne. by rewrite lookup_insert_ne.
  - intros Hfresh other room Hother.
    rewrite lookup_insert_ne; [done|]. intros <-. congruence.
Qed.

(** A second room next to a first one. *)
Lemma createGame_inserts_witness :
  let gameRooms :=
    run [CreateGame "h" "0.abcdefgh1jk"; JoinGame "p" "ABCDE" "Pia"] ∅ in
  rooms_after (createGame "k" "0.zyxwvuts8rq" gameRooms) !! "ABCDE"
  = Some (mkRoom "h" [mkPlayer "p" "Pia"] (mkGameState waiting 1 [] "" [] ∅)
            (<["p" := Num 0]> ∅)).
Proof.
  intros gameRooms.
  destruct (createGame_inserts "k" "0.zyxwvuts8rq" gameRooms)
    as (_ & _ & _ & _ & Hfresh).
  apply Hfresh; vm_compute; reflexivity.
Defined.

(** C7 fails as stated: [Math.random] gives twice a number with the same
    first five base-36 digits; the second [createGame] answers with the code
    of a live room and replaces that room, player included. *)
Lemma createGame_collision :
  let before :=
    run [CreateGame "h" "0.abcdefgh1jk"; JoinGame "p" "ABCDE" "Pia"] ∅ in
  let out := createGame "k" "0.abcde42x9qz" before in
  (players <$> before !! "ABCDE") = Some [mkPlayer "p" "Pia"]
  ∧ ack out = Some (AckRoomCode "ABCDE")
  ∧ rooms_after out !! "ABCDE" = Some (newRoom "k")
  ∧ rooms_after out !! "ABCDE" ≠ before !! "ABCDE".
Proof.
  vm_compute. repeat split. intros Heq. discriminate Heq.
Qed.

(** ** Reading the game state *)

Lemma getGameState_present roomCode (gameRooms : gmap string Room) room :
  gameRooms !! roomCode = Some room →
  getGameState roomCode gameRooms
  = mkOutcome gameRooms []
      (Some (AckGameState (gameState room) (players room))).
Proof. intros Hroom. unfold getGameState. by rewrite Hroom. Qed.

Lemma getGameState_absent roomCode (gameRooms : gmap string Room) :
  gameRooms !! roomCode = None →
  getGameState roomCode gameRooms = mkOutcome gameRooms [] None.
Proof. intros Hroom. unfold getGameState. by rewrite Hroom. Qed.

Lemma joinGame_absent socket_id roomCode playerName
    (gameRooms : gmap string Room) :
  gameRooms !! roomCode = None →
  ack (joinGame socket_id roomCode playerName gameRooms)
  = Some (AckJoin false (Some "Room not found.")).
Proof. intros Hroom. unfold joinGame. by rewrite Hroom. Qed.

(** C8 on the code: for a code that is not in the registry [getGameState]
    never calls its callback, so the caller learns nothing, where [joinGame]
    answers "Room not found." for the same code; for a code that is in the
    registry the callback gets the game state and the players. *)
Theorem getGameState_unknown_code_is_silent :
  let gameRooms :=
    run [CreateGame "h" "0.abcdefgh1jk"; JoinGame "p" "ABCDE" "Pia"] ∅ in
  gameRooms !! "ZZZZZ" = None
  ∧ getGameState "ZZZZZ" gameRooms = mkOutcome gameRooms [] None
  ∧ ack (joinGame "q" "ZZZZZ" "Quin" gameRooms)
    = Some (AckJoin false (Some "Room not found."))
  ∧ ack (getGameState "ABCDE" gameRooms)
    = Some (AckGameState (mkGameState waiting 1 [] "" [] ∅)
              [mkPlayer "p" "Pia"]).
Proof.
  intros gameRooms.
  assert (Habsent : gameRooms !! "ZZZZZ" = None) by (vm_compute; reflexivity).
  split; [done|].
  split; [by apply getGameState_absent|].
  split; [by apply joinGame_absent|].
  vm_compute. reflexivity.
Qed.

(** ** The round result *)


(** The tally of the specification's example: five players, two votes for
    ["A"], two for ["B"], one for ["C"]. *)
Example tally_two_two_one :
  let gameRooms :=
    run [CreateGame "A" "0.abcdefgh1jk";
         JoinGame "A" "ABCDE" "Ann"; JoinGame "B" "ABCDE" "Bob";
         JoinGame "C" "ABCDE" "Cy"; JoinGame "D" "ABCDE" "Di";
         JoinGame "E" "ABCDE" "Ed";
         SubmitVote "A" "ABCDE" "B"; SubmitVote "B" "ABCDE" "A";
         SubmitVote "C" "ABCDE" "A"; SubmitVote "D" "ABCDE" "B"] ∅ in
  let out := submitVote "E" "ABCDE" "C" gameRooms in
  ∃ winners sc,
    emitted out = [roundResult "ABCDE" winners sc; phaseChange "ABCDE" result]
    ∧ winners ≡ₚ ["A"; "B"]
    ∧ (scores <$> rooms_after out !! "ABCDE") = Some sc
    ∧ sc !! "A" = Some (Num 1) ∧ sc !! "B" = Some (Num 1)
    ∧ sc !! "C" = Some (Num 0) ∧ sc !! "D" = Some (Num 0)
    ∧ sc !! "E" = Some (Num 0).
Proof.
  vm_compute. do 2 eexists. split; [reflexivity|].
  split; [|repeat split].
  (apply Permutation_refl || apply perm_swap).
Qed.

(** C2 on the code: three players write captions, ["c"] leaves, the two
    others vote for the caption of ["c"].  The tally makes ["c"] the only
    winner.  Its score entry went away with the disconnect, and the update
    stores [NaN] under ["c"]: no score has gone up by one. *)
Theorem departed_winner_gets_NaN :
  let before :=
    run [CreateGame "a" "0.abcdefgh1jk";
         JoinGame "a" "ABCDE" "Ann"; JoinGame "b" "ABCDE" "Bob";
         JoinGame "c" "ABCDE" "Cy"; StartGame "a" "ABCDE";
         SubmitPrompt "a" "ABCDE" "p1" 0; SubmitPrompt "b" "ABCDE" "p2" 0;
         SubmitPrompt "c" "ABCDE" "p3" 0;
         SubmitCaption "a" "ABCDE" "c1"; SubmitCaption "b" "ABCDE" "c2";
         SubmitCaption "c" "ABCDE" "c3";
         Disconnect "c"; SubmitVote "a" "ABCDE" "c"] ∅ in
  let out := submitVote "b" "ABCDE" "c" before in
  ∃ sc sc',
    (scores <$> before !! "ABCDE") = Some sc
    ∧ (scores <$> rooms_after out !! "ABCDE") = Some sc'
    ∧ emitted out = [roundResult "ABCDE" ["c"] sc'; phaseChange "ABCDE" result]
    ∧ sc !! "c" = None
    ∧ sc' !! "c" = Some NaN
    ∧ sc' !! "a" = Some (Num 0) ∧ sc' !! "b" = Some (Num 0).
Proof. vm_compute. do 2 eexists. repeat split. Qed.

(** ** Scores and players *)

Section ScoresMatch.
Implicit Types (room : Room) (sc : gmap string jsnum).

Lemma newRoom_scores_match socket_id : scores_match (newRoom socket_id).
Proof.
  split; simpl.
  - by rewrite dom_empty_L.
  - apply map_Forall_empty.
Qed.

Lemma joinRoom_scores_match socket_id playerName room :
  scores_match room → scores_match (joinRoom socket_id playerName room).
Proof.
  intros [Hdom Hall]. split; simpl.
  - unfold player_ids. simpl.
    rewrite dom_insert_L, fmap_app, list_to_set_app_L, Hdom. simpl.
    rewrite (right_id_L ∅ (∪)). apply (comm_L (∪)).
  - by apply map_Forall_insert_2.
Qed.

Lemma leaveRoom_player_ids socket_id room :
  player_ids (leaveRoom socket_id room)
  = filter (λ i, i ≠ socket_id) (player_ids room).
Proof.
  unfold player_ids. simpl.
  induction (players room) as [|p ps IH]; [done|].
  rewrite fmap_cons, !filter_cons.
  destruct (decide (player_id p ≠ socket_id)); [rewrite fmap_cons|];
    by rewrite IH.
Qed.

Lemma leaveRoom_scores_match socket_id room :
  scores_match room → scores_match (leaveRoom socket_id room).
Proof.
  intros [Hdom Hall]. split.
  - rewrite leaveRoom_player_ids. simpl. rewrite dom_delete_L, Hdom.
    apply set_eq. intros i.
    rewrite elem_of_difference, !elem_of_list_to_set, list_elem_of_filter,
      elem_of_singleton.
    tauto.
  - simpl. by apply map_Forall_delete.
Qed.

Lemma foldl_addPoint_scores winners : ∀ sc,
  (∀ w, w ∈ winners → w ∈ dom sc) →
  map_Forall (λ _ x, wholeScore x) sc →
  dom (foldl addPoint sc winners) = dom sc
  ∧ map_Forall (λ _ x, wholeScore x) (foldl addPoint sc winners).
Proof.
  induction winners as [|w winners IH]; intros sc Hin Hall; simpl; [done|].
  assert (Hw : w ∈ dom sc) by (apply Hin, list_elem_of_here).
  apply elem_of_dom in Hw as [x Hx].
  assert (Hdom : dom (addPoint sc w) = dom sc).
  { unfold addPoint. rewrite dom_insert_L.
    apply set_eq. intros i. rewrite elem_of_union, elem_of_singleton.
    split; [intros [->|?]|by right]; [apply elem_of_dom; eauto | done]. }
  destruct (IH (addPoint sc w)) as [IHdom IHall].
  - intros w' Hw'. rewrite Hdom. apply Hin. by apply list_elem_of_further.
  - unfold addPoint. apply map_Forall_insert_2; [|done].
    rewrite Hx. specialize (Hall w x Hx). simpl in Hall.
    destruct x as [n|]; simpl in *; [lia | done].
  - split; [by rewrite IHdom | done].
Qed.

Lemma submitVoteRoom_scores_match socket_id roomCode votedCaptionId room :
  votes_name_players room
    (<[socket_id := votedCaptionId]> (votes (gameState room))) →
  scores_match room →
  scores_match (submitVoteRoom socket_id roomCode votedCaptionId room).1.
Proof.
  intros Hnames [Hdom Hall]. unfold submitVoteRoom.
  set (votes' := <[socket_id := votedCaptionId]> (votes (gameState room))) in *.
  case_decide; simpl; [|done].
  destruct (foldl_addPoint_scores
              (winnersOf (tallyVotes (map_to_list votes').*2))
              (scores room)) as [Hdom' Hall']; [|done|].
  - intros w Hw. rewrite Hdom. apply elem_of_list_to_set.
    apply winners_are_the_maxima in Hw as [Hw _].
    apply list_elem_of_fmap in Hw as [[voter target] [-> Hin]].
    apply elem_of_map_to_list in Hin. by apply (Hnames voter).
  - split; simpl; [by rewrite Hdom' | done].
Qed.

Lemma withRoom_scores_match roomCode body (gameRooms : gmap string Room) :
  (∀ room, gameRooms !! roomCode = Some room →
     scores_match room → scores_match (body room).1) →
  (∀ code room, gameRooms !! code = Some room → scores_match room) →
  ∀ code room', rooms_after (withRoom roomCode body gameRooms) !! code
                = Some room' → scores_match room'.
Proof.
  intros Hbody Hinv code room' Hlook.
  destruct (decide (code = roomCode)) as [->|Hne].
  - destruct (gameRooms !! roomCode) as [room|] eqn:Hroom.
    + destruct (withRoom_here roomCode body gameRooms room Hroom) as [Hr _].
      rewrite Hr in Hlook. injection Hlook as <-. eauto.
    + rewrite withRoom_missing in Hlook by done. simpl in Hlook. congruence.
  - rewrite withRoom_elsewhere in Hlook by done. eauto.
Qed.

(** Every request keeps [scores_match], a vote for somebody who is not a
    player of the room left aside. *)
Lemma handle_scores_match req (gameRooms : gmap string Room) :
  names_players req gameRooms →
  (∀ code room, gameRooms !! code = Some room → scores_match room) →
  ∀ code room', rooms_after (handle req gameRooms) !! code = Some room' →
    scores_match room'.
Proof.
  intros Hnames Hinv code room'.
  destruct req as [s r|s c n|s c|s c p k|s c t|s c|s c v|s]; simpl.
  - intros Hlook. destruct (decide (code = generateRoomCode r)) as [->|Hne].
    + rewrite lookup_insert_eq in Hlook. injection Hlook as <-.
      apply newRoom_scores_match.
    + rewrite lookup_insert_ne in Hlook by done. eauto.
  - unfold joinGame. destruct (gameRooms !! c) as [room|] eqn:Hroom; simpl.
    + intros Hlook. destruct (decide (code = c)) as [->|Hne].
      * rewrite lookup_insert_eq in Hlook. injection Hlook as <-.
        apply joinRoom_scores_match. eauto.
      * rewrite lookup_insert_ne in Hlook by done. eauto.
    + eauto.
  - apply withRoom_scores_match; [|done].
    intros room _ Hm. unfold startRoom. by case_decide.
  - apply withRoom_scores_match; [|done].
    intros room _ Hm. unfold submitPromptRoom. by case_decide.
  - apply withRoom_scores_match; [|done].
    intros room _ Hm. unfold submitCaptionRoom. by case_decide.
  - unfold getGameState. destruct (gameRooms !! c); simpl; eauto.
  - apply withRoom_scores_match; [|done].
    intros room Hroom Hm. apply submitVoteRoom_scores_match; [|done].
    by apply Hnames.
  - intros Hlook. apply lookup_omap_Some in Hlook as (room & Hkeep & Hroom).
    unfold keepRoom in Hkeep. case_decide; [done|].
    injection Hkeep as <-. apply leaveRoom_scores_match. eauto.
Qed.
End ScoresMatch.

(** C3 on the code: three players write captions, ["c"] leaves, the two
    others vote for the caption of ["c"].  After the tally the room has the
    players ["a"] and ["b"], and [scores] has the three keys ["a"], ["b"]
    and ["c"], the last with the value [NaN]. *)
Theorem tally_breaks_scores_match :
  let gameRooms :=
    run [CreateGame "a" "0.abcdefgh1jk";
         JoinGame "a" "ABCDE" "Ann"; JoinGame "b" "ABCDE" "Bob";
         JoinGame "c" "ABCDE" "Cy"; StartGame "a" "ABCDE";
         SubmitPrompt "a" "ABCDE" "p1" 0; SubmitPrompt "b" "ABCDE" "p2" 0;
         SubmitPrompt "c" "ABCDE" "p3" 0;
         SubmitCaption "a" "ABCDE" "c1"; SubmitCaption "b" "ABCDE" "c2";
         SubmitCaption "c" "ABCDE" "c3";
         Disconnect "c";
         SubmitVote "a" "ABCDE" "c"; SubmitVote "b" "ABCDE" "c"] ∅ in
  ∃ room,
    gameRooms !! "ABCDE" = Some room
    ∧ player_ids room = ["a"; "b"]
    ∧ dom (scores room) = {["a"; "b"; "c"]}
    ∧ scores room !! "c" = Some NaN
    ∧ ¬ scores_match room.
Proof.
  eexists. split; [vm_compute; reflexivity|].
  split; [reflexivity|].
  split; [vm_compute; reflexivity|].
  split; [vm_compute; reflexivity|].
  intros [_ Hall]. apply (Hall "c" NaN). vm_compute. reflexivity.
Qed.

(** ** The host *)

Section Leave.
Context (socket_id : string) (room : Room).

Lemma leaveRoom_gone : socket_id ∉ player_ids (leaveRoom socket_id room).
Proof.
  rewrite leaveRoom_player_ids. intros Hin.
  apply list_elem_of_filter in Hin as [Hne _]. done.
Qed.

Lemma leaveRoom_takeover :
  host room = socket_id →
  players (leaveRoom socket_id room) ≠ [] →
  head (player_ids (leaveRoom socket_id room))
  = Some (host (leaveRoom socket_id room)).
Proof.
  intros Hhost. unfold player_ids. simpl.
  destruct (filter _ (players room)) as [|first rest]; [done|].
  intros _. simpl. by rewrite decide_True.
Qed.

Lemma leaveRoom_host_differs :
  players (leaveRoom socket_id room) ≠ [] →
  host (leaveRoom socket_id room) ≠ socket_id.
Proof.
  intros Hne.
  destruct (decide (host room = socket_id)) as [Hhost|Hother].
  - pose proof (leaveRoom_takeover Hhost Hne) as Hhead.
    intros Heq. rewrite Heq in Hhead.
    apply head_Some_elem_of in Hhead. by apply leaveRoom_gone in Hhead.
  - simpl in *. destruct (filter _ (players room)); [done|].
    by rewrite decide_False.
Qed.

Lemma leaveRoom_host_present :
  host_present room → host_present (leaveRoom socket_id room).
Proof.
  intros Hpresent.
  destruct (decide (players (leaveRoom socket_id room) = [])) as [|Hne];
    [by left | right].
  destruct (decide (host room = socket_id)) as [Hhost|Hother].
  - apply head_Some_elem_of. by apply leaveRoom_takeover.
  - assert (Hsame : host (leaveRoom socket_id room) = host room).
    { simpl. destruct (filter _ (players room)); [done|].
      by rewrite decide_False. }
    rewrite Hsame, leaveRoom_player_ids. apply list_elem_of_filter.
    split; [done|].
    destruct Hpresent as [Hnil|Hin]; [|done].
    simpl in Hne. by rewrite Hnil in Hne.
Qed.

(** A connection that is neither a player nor the host of the room only
    loses its entry in [scores], if it has one. *)
Lemma leaveRoom_stranger :
  socket_id ∉ player_ids room → host room ≠ socket_id →
  leaveRoom socket_id room
  = mkRoom (host room) (players room) (gameState room)
      (delete socket_id (scores room)).
Proof.
  intros Hnot Hhost. unfold leaveRoom.
  assert (Hkeep : filter (λ player, player_id player ≠ socket_id)
                    (players room) = players room).
  { unfold player_ids in Hnot.
    induction (players room) as [|p ps IH]; [done|].
    rewrite fmap_cons in Hnot. apply not_elem_of_cons in Hnot as [Hp Hps].
    rewrite filter_cons, decide_True by done. by rewrite IH. }
  rewrite Hkeep. destruct (players room); [done|].
  by rewrite decide_False.
Qed.
End Leave.

Lemma disconnect_lookup socket_id (gameRooms : gmap string Room) roomCode :
  rooms_after (disconnect socket_id gameRooms) !! roomCode
  = (gameRooms !! roomCode) ≫= (λ room, keepRoom (leaveRoom socket_id room)).
Proof. simpl. apply lookup_omap. Qed.

Lemma withRoom_host_present roomCode body (gameRooms : gmap string Room) :
  (∀ room, host_present room → host_present (body room).1) →
  (∀ code room, gameRooms !! code = Some room → host_present room) →
  ∀ code room', rooms_after (withRoom roomCode body gameRooms) !! code
                = Some room' → host_present room'.
Proof.
  intros Hbody Hinv code room' Hlook.
  destruct (decide (code = roomCode)) as [->|Hne].
  - destruct (gameRooms !! roomCode) as [room|] eqn:Hroom.
    + destruct (withRoom_here roomCode body gameRooms room Hroom) as [Hr _].
      rewrite Hr in Hlook. injection Hlook as <-. eauto.
    + rewrite withRoom_missing in Hlook by done. simpl in Hlook. congruence.
  - rewrite withRoom_elsewhere in Hlook by done. eauto.
Qed.

(** C6, as the code has it.  [createGame] makes the caller host without
    making it a player, so the host is missing from [players] when somebody
    else joins first.  What holds: [host_present] survives every request
    except such a first join by a guest; and after the disconnect of a
    connection every room that is left has a player, has neither that
    connection as host nor as player, and, where that connection was the
    host, is hosted by the first player that remains. *)
Theorem host_present_preserved :
  (∀ req (gameRooms : gmap string Room),
     (∀ code room, gameRooms !! code = Some room → host_present room) →
     ¬ first_join_by_guest req gameRooms →
     ∀ code room', rooms_after (handle req gameRooms) !! code = Some room' →
       host_present room')
  ∧ (∀ socket_id (gameRooms : gmap string Room) roomCode room room',
       gameRooms !! roomCode = Some room →
       rooms_after (disconnect socket_id gameRooms) !! roomCode = Some room' →
       players room' ≠ []
       ∧ host room' ≠ socket_id
       ∧ (socket_id ∉ player_ids room')
       ∧ (host room = socket_id →
            head (player_ids room') = Some (host room'))).
Proof.
  split.
  - intros req gameRooms Hinv Hguest code room'.
    destruct req as [s r|s c n|s c|s c p k|s c t|s c|s c v|s]; simpl.
    + intros Hlook. destruct (decide (code = generateRoomCode r)) as [->|Hne].
      * rewrite lookup_insert_eq in Hlook. injection Hlook as <-. by left.
      * rewrite lookup_insert_ne in Hlook by done. eauto.
    + unfold joinGame. destruct (gameRooms !! c) as [room|] eqn:Hroom; simpl.
      * intros Hlook. destruct (decide (code = c)) as [->|Hne].
        -- rewrite lookup_insert_eq in Hlook. injection Hlook as <-.
           right. unfold player_ids. simpl. rewrite fmap_app. simpl.
           apply elem_of_app.
           destruct (Hinv c room Hroom) as [Hnil|Hin]; [|by left].
           right. apply list_elem_of_singleton.
           destruct (decide (s = host room)) as [->|Hne]; [done|].
           destruct Hguest. simpl. eauto.
        -- rewrite lookup_insert_ne in Hlook by done. eauto.
      * eauto.
    + apply withRoom_host_present; [|done].
      intros room Hp. unfold startRoom. by case_decide.
    + apply withRoom_host_present; [|done].
      intros room Hp. unfold submitPromptRoom. by case_decide.
    + apply withRoom_host_present; [|done].
      intros room Hp. unfold submitCaptionRoom. by case_decide.
    + unfold getGameState. destruct (gameRooms !! c); simpl; eauto.
    + apply withRoom_host_present; [|done].
      intros room Hp. unfold submitVoteRoom. by case_decide.
    + intros Hlook. apply lookup_omap_Some in Hlook as (room & Hkeep & Hroom).
      unfold keepRoom in Hkeep. case_decide; [done|].
      injection Hkeep as <-. apply leaveRoom_host_present. eauto.
  - intros socket_id gameRooms roomCode room room' Hroom Hlook.
    rewrite disconnect_lookup, Hroom in Hlook. simpl in Hlook.
    unfold keepRoom in Hlook. case_decide as Hlen; [done|].
    injection Hlook as <-.
    assert (Hne : players (leaveRoom socket_id room) ≠ []).
    { intros Hnil. by rewrite Hnil in Hlen. }
    split; [done|].
    split; [by apply leaveRoom_host_differs|].
    split; [apply leaveRoom_gone|].
    intros Hhost. by apply leaveRoom_takeover.
Qed.

(** The host of a room of three leaves. *)
Lemma host_present_preserved_witness :
  let gameRooms :=
    run [CreateGame "h" "0.abcdefgh1jk"; JoinGame "h" "ABCDE" "Hana";
         JoinGame "a" "ABCDE" "Ann"; JoinGame "b" "ABCDE" "Bob"] ∅ in
  ∃ room',
    rooms_after (disconnect "h" gameRooms) !! "ABCDE" = Some room'
    ∧ host room' = "a"
    ∧ head (player_ids room') = Some (host room')
    ∧ host_present room'.
Proof.
  intros gameRooms.
  set (room := mkRoom "h"
                 [mkPlayer "h" "Hana"; mkPlayer "a" "Ann"; mkPlayer "b" "Bob"]
                 (mkGameState waiting 1 [] "" [] ∅)
                 (<["b" := Num 0]> (<["a" := Num 0]> (<["h" := Num 0]> ∅)))).
  set (room' := mkRoom "a" [mkPlayer "a" "Ann"; mkPlayer "b" "Bob"]
                  (mkGameState waiting 1 [] "" [] ∅)
                  (<["b" := Num 0]> (<["a" := Num 0]> ∅))).
  assert (Hroom : gameRooms !! "ABCDE" = Some room)
    by (vm_compute; reflexivity).
  assert (Hroom' : rooms_after (disconnect "h" gameRooms) !! "ABCDE"
                   = Some room') by (vm_compute; reflexivity).
  assert (Hinv : ∀ code r, gameRooms !! code = Some r → host_present r).
  { intros code r Hr. destruct (decide (code = "ABCDE")) as [->|Hne].
    - rewrite Hroom in Hr. injection Hr as <-. right. apply list_elem_of_here.
    - assert (Hdom : dom gameRooms = {["ABCDE"]}) by (vm_compute; reflexivity).
      assert (Hin : code ∈ dom gameRooms) by (apply elem_of_dom; eauto).
      rewrite Hdom in Hin. by apply elem_of_singleton in Hin. }
  destruct host_present_preserved as [Hkeep Hleave].
  exists room'. split; [exact Hroom'|]. split; [reflexivity|].
  split.
  - destruct (Hleave "h" gameRooms "ABCDE" room room' Hroom Hroom')
      as (_ & _ & _ & Hhead).
    by apply Hhead.
  - apply (Hkeep (Disconnect "h") gameRooms Hinv (λ H, H) "ABCDE" room').
    exact Hroom'.
Defined.

(** C6 fails as stated: ["h"] creates a room and ["p"] joins it; the room
    has a player, and its host ["h"] is not one of its players. *)
Lemma host_absent_after_guest_joins :
  let gameRooms :=
    run [CreateGame "h" "0.abcdefgh1jk"; JoinGame "p" "ABCDE" "Pia"] ∅ in
  ∃ room,
    gameRooms !! "ABCDE" = Some room
    ∧ player_ids room = ["p"]
    ∧ host room = "h"
    ∧ host room ∉ player_ids room.
Proof.
  eexists. split; [vm_compute; reflexivity|].
  repeat split. simpl. intros Hin.
  apply list_elem_of_singleton in Hin. discriminate Hin.
Qed.

(** ** What a disconnect leaves alone *)

(** C10, as the code has it: the disconnect of [socket_id] removes every
    room that has no player once [socket_id] is filtered out, whether or not
    [socket_id] ever joined it; a room that was just created is removed by
    the disconnect of any connection.  A room that keeps a player, and of
    which [socket_id] is neither a player nor the host, keeps its players,
    host and game state, and its scores except for an entry stored under
    [socket_id], which is deleted; without such an entry the room is
    unchanged. *)
Theorem disconnect_frame
    (socket_id creator random36 roomCode : string)
    (gameRooms : gmap string Room) (room : Room) :
  gameRooms !! roomCode = Some room →
  let after := rooms_after (disconnect socket_id gameRooms) in
  (players (leaveRoom socket_id room) = [] → after !! roomCode = None)
  ∧ (players (leaveRoom socket_id room) ≠ [] →
       after !! roomCode = Some (leaveRoom socket_id room))
  ∧ (socket_id ∉ player_ids room → players room = [] →
       after !! roomCode = None)
  ∧ (socket_id ∉ player_ids room → host room ≠ socket_id →
     players room ≠ [] →
       after !! roomCode
       = Some (mkRoom (host room) (players room) (gameState room)
                 (delete socket_id (scores room))))
  ∧ (socket_id ∉ player_ids room → host room ≠ socket_id →
     players room ≠ [] → scores room !! socket_id = None →
       after !! roomCode = Some room)
  ∧ rooms_after
      (disconnect socket_id
         (rooms_after (createGame creator random36 gameRooms)))
      !! generateRoomCode random36 = None.
Proof.
  intros Hroom after. subst after.
  rewrite disconnect_lookup, Hroom.
  change (Some room ≫= (λ room0, keepRoom (leaveRoom socket_id room0)))
    with (keepRoom (leaveRoom socket_id room)).
  unfold keepRoom.
  assert (Hstranger : socket_id ∉ player_ids room → host room ≠ socket_id →
            players room ≠ [] →
            (if decide (length (players (leaveRoom socket_id room)) = 0)
             then None else Some (leaveRoom socket_id room))
            = Some (mkRoom (host room) (players room) (gameState room)
                      (delete socket_id (scores room)))).
  { intros Hnot Hhost Hne. rewrite leaveRoom_stranger by done. simpl.
    rewrite decide_False; [done|]. by destruct (players room). }
  split; [|split; [|split; [|split; [|split]]]].
  - intros Hnil. by rewrite Hnil.
  - intros Hne. rewrite decide_False; [done|].
    by destruct (players (leaveRoom socket_id room)).
  - intros _ Hnil. simpl. by rewrite Hnil.
  - exact Hstranger.
  (* the last part is about the registry after [createGame] *)
  - intros Hnot Hhost Hne Hscore. rewrite Hstranger by done.
    rewrite delete_id by done. by destruct room.
  - rewrite disconnect_lookup. simpl. by rewrite lookup_insert_eq.
Qed.

(** A room of two players next to a room that was just created; a third
    connection, known to neither room, disconnects. *)
Lemma disconnect_frame_witness :
  let gameRooms :=
    run [CreateGame "h" "0.abcdefgh1jk"; JoinGame "h" "ABCDE" "Hana";
         JoinGame "a" "ABCDE" "Ann"; CreateGame "k" "0.zyxwvuts8rq"] ∅ in
  rooms_after (disconnect "x" gameRooms) !! "ABCDE" = gameRooms !! "ABCDE"
  ∧ is_Some (gameRooms !! "ZYXWV")
  ∧ rooms_after (disconnect "x" gameRooms) !! "ZYXWV" = None.
Proof.
  intros gameRooms.
  set (room := mkRoom "h" [mkPlayer "h" "Hana"; mkPlayer "a" "Ann"]
                 (mkGameState waiting 1 [] "" [] ∅)
                 (<["a" := Num 0]> (<["h" := Num 0]> ∅))).
  assert (Hroom : gameRooms !! "ABCDE" = Some room)
    by (vm_compute; reflexivity).
  assert (Hfresh : gameRooms !! "ZYXWV" = Some (newRoom "k"))
    by (vm_compute; reflexivity).
  split; [|split].
  - destruct (disconnect_frame "x" "k" "0.zyxwvuts8rq" "ABCDE" gameRooms room Hroom)
      as (_ & _ & _ & _ & Hsame & _).
    rewrite Hroom. apply Hsame.
    + simpl. intros Hin. apply elem_of_cons in Hin as [Hin|Hin];
        [discriminate Hin|].
      apply list_elem_of_singleton in Hin. discriminate Hin.
    + simpl. discriminate.
    + simpl. discriminate.
    + vm_compute. reflexivity.
  - rewrite Hfresh. eexists. reflexivity.
  - destruct (disconnect_frame "x" "k" "0.zyxwvuts8rq" "ZYXWV" gameRooms
                (newRoom "k") Hfresh) as (_ & _ & Hgone & _).
    apply Hgone.
    + simpl. apply not_elem_of_nil.
    + reflexivity.
Defined.

(** C10 fails as stated: ["a"] is alone in a room and votes for ["x"], a
    connection that is neither player nor host of the room; the tally stores
    a score under ["x"].  When ["x"] disconnects the room keeps its player,
    and its scores lose that entry. *)
Lemma disconnect_of_stranger_changes_scores :
  let before :=
    run [CreateGame "a" "0.abcdefgh1jk"; JoinGame "a" "ABCDE" "Ann";
         SubmitVote "a" "ABCDE" "x"] ∅ in
  let after := rooms_after (disconnect "x" before) in
  ∃ room room',
    before !! "ABCDE" = Some room
    ∧ after !! "ABCDE" = Some room'
    ∧ ("x" ∉ player_ids room)
    ∧ host room ≠ "x"
    ∧ players room' = [mkPlayer "a" "Ann"]
    ∧ is_Some (scores room !! "x")
    ∧ scores room' !! "x" = None
    ∧ scores room' ≠ scores room.
Proof.
  do 2 eexists.
  split; [vm_compute; reflexivity|].
  split; [vm_compute; reflexivity|].
  simpl. repeat split.
  - intros Hin. apply list_elem_of_singleton in Hin. discriminate Hin.
  - discriminate.
  - eexists. vm_compute. reflexivity.
  - intros Heq. vm_compute in Heq. discriminate Heq.
Qed.

(** * Further properties of the handlers *)

(** ** Requests to one room *)







(** ** Joining *)

Lemma run_cons req reqs (gameRooms : gmap string Room) :
  run (req :: reqs) gameRooms = run reqs (rooms_after (handle req gameRooms)).
Proof. done. Qed.

Lemma run_app reqs1 reqs2 (gameRooms : gmap string Room) :
  run (reqs1 ++ reqs2) gameRooms = run reqs2 (run reqs1 gameRooms).
Proof. unfold run. apply foldl_app. Qed.

(** A run of joins into one room appends the joiners to [players] in the
    order of their requests and leaves every joiner with the score 0; host,
    game state and the scores of everybody else stay.  Into a room without
    scores, joiners with distinct ids give as many scores as joiners. *)
Theorem joins_add_players_at_zero
    (joiners : list (string * string)) (roomCode : string) :
  ∀ (gameRooms : gmap string Room) (room : Room),
  gameRooms !! roomCode = Some room →
  ∃ room',
    run (joinRequests roomCode joiners) gameRooms !! roomCode = Some room'
    ∧ players room'
      = players room ++ ((λ j, mkPlayer j.1 j.2) <$> joiners)
    ∧ host room' = host room
    ∧ gameState room' = gameState room
    ∧ (∀ s, s ∈ joiners.*1 → scores room' !! s = Some (Num 0))
    ∧ (∀ s, s ∉ joiners.*1 → scores room' !! s = scores room !! s)
    ∧ (scores room = ∅ → NoDup joiners.*1 →
         size (scores room') = length joiners).
Proof.
  induction joiners as [|[s n] joiners IH]; intros gameRooms room Hroom.
  - exists room. simpl. rewrite app_nil_r.
    repeat split; try done.
    + intros s Hin. by apply elem_of_nil in Hin.
    + intros ->. intros _. apply map_size_empty.
  - unfold joinRequests. rewrite fmap_cons, run_cons. simpl.
    unfold joinGame. rewrite Hroom. simpl.
    destruct (IH (<[roomCode := joinRoom s n room]> gameRooms)
                (joinRoom s n room)) as
      (room' & Hlook & Hplayers & Hhost & Hgs & Hzero & Hother & _);
      [apply lookup_insert_eq|].
    exists room'. split; [exact Hlook|].
    split; [rewrite Hplayers; simpl; by rewrite <- app_assoc|].
    split; [done|]. split; [done|].
    assert (Hz : ∀ s', s' ∈ s :: joiners.*1 → scores room' !! s' = Some (Num 0)).
    { intros s' Hin.
      destruct (decide (s' ∈ joiners.*1)) as [Hj|Hj]; [by apply Hzero|].
      apply elem_of_cons in Hin as [->|Hin]; [|done].
      rewrite Hother by done. simpl. apply lookup_insert_eq. }
    assert (Ho : ∀ s', s' ∉ s :: joiners.*1 →
              scores room' !! s' = scores room !! s').
    { intros s' Hnot. apply not_elem_of_cons in Hnot as [Hne Hnot].
      rewrite Hother by done. simpl. by rewrite lookup_insert_ne. }
    split; [exact Hz|]. split; [exact Ho|].
    intros Hempty Hnd.
    assert (Hdom : dom (scores room') = list_to_set (s :: joiners.*1)).
    { apply set_eq. intros s'. rewrite elem_of_dom, elem_of_list_to_set.
      split.
      - intros Hsome. destruct (decide (s' ∈ s :: joiners.*1)) as [|Hnot];
          [done|].
        rewrite Ho, Hempty, lookup_empty in Hsome by done.
        by destruct Hsome.
      - intros Hin. rewrite Hz by done. eauto. }
    rewrite <- size_dom, Hdom, size_list_to_set by done.
    simpl. by rewrite length_fmap.
Qed.

(** Three players join a room that was just created. *)
Lemma joins_add_players_at_zero_witness :
  let gameRooms := run [CreateGame "h" "0.abcdefgh1jk"] ∅ in
  ∃ room',
    run (joinRequests "ABCDE" [("a", "Ann"); ("b", "Bob"); ("c", "Cy")])
      gameRooms !! "ABCDE" = Some room'
    ∧ player_ids room' = ["a"; "b"; "c"]
    ∧ scores room' !! "b" = Some (Num 0)
    ∧ size (scores room') = 3.
Proof.
  intros gameRooms.
  destruct (joins_add_players_at_zero
              [("a", "Ann"); ("b", "Bob"); ("c", "Cy")] "ABCDE"
              gameRooms (newRoom "h"))
    as (room' & Hlook & Hplayers & _ & _ & Hzero & _ & Hsize);
    [vm_compute; reflexivity|].
  exists room'. split; [exact Hlook|].
  split; [unfold player_ids; by rewrite Hplayers|].
  split.
  - apply Hzero. simpl. apply list_elem_of_further, list_elem_of_here.
  - apply Hsize; [reflexivity|]. simpl.
    apply (bool_decide_unpack _). vm_compute. exact I.
Defined.

(** [joinGame] does not look for the joining connection among the players:
    a connection that joins a room it is already in gets a second entry in
    [players], so the ids in [players] are no longer distinct, and its score
    is set back to 0. *)
Theorem rejoin_duplicates_player
    (socket_id roomCode playerName : string)
    (gameRooms : gmap string Room) (room : Room) :
  gameRooms !! roomCode = Some room →
  socket_id ∈ player_ids room →
  ∃ room',
    rooms_after (joinGame socket_id roomCode playerName gameRooms) !! roomCode
      = Some room'
    ∧ length (entriesOf socket_id (players room'))
      = S (length (entriesOf socket_id (players room)))
    ∧ ¬ NoDup (player_ids room')
    ∧ scores room' !! socket_id = Some (Num 0).
Proof.
  intros Hroom Hin. unfold joinGame. rewrite Hroom. simpl.
  exists (joinRoom socket_id playerName room).
  split; [apply lookup_insert_eq|].
  split; [|split].
  - simpl. unfold entriesOf.
    rewrite filter_app, length_app, filter_cons. simpl.
    rewrite decide_True by done. simpl. lia.
  - unfold player_ids. simpl. rewrite fmap_app. simpl.
    intros Hnd. apply NoDup_app in Hnd as (_ & Hdisj & _).
    apply (Hdisj socket_id Hin). apply list_elem_of_here.
  - simpl. apply lookup_insert_eq.
Qed.

(** A player with one point joins again. *)
Lemma rejoin_duplicates_player_witness :
  let gameRooms :=
    run [CreateGame "a" "0.abcdefgh1jk"; JoinGame "a" "ABCDE" "Ann";
         SubmitVote "a" "ABCDE" "a"] ∅ in
  (scores <$> gameRooms !! "ABCDE") = Some (<["a" := Num 1]> ∅)
  ∧ ∃ room',
      rooms_after (joinGame "a" "ABCDE" "Ann" gameRooms) !! "ABCDE"
        = Some room'
      ∧ scores room' !! "a" = Some (Num 0).
Proof.
  intros gameRooms. split; [vm_compute; reflexivity|].
  assert (Hroom : gameRooms !! "ABCDE"
                  = Some (mkRoom "a" [mkPlayer "a" "Ann"]
                            (mkGameState result 1 [] "" []
                               (<["a" := "a"]> ∅))
                            (<["a" := Num 1]> ∅)))
    by (vm_compute; reflexivity).
  destruct (rejoin_duplicates_player "a" "ABCDE" "Ann" gameRooms _ Hroom)
    as (room' & Hlook & _ & _ & Hscore).
  - apply list_elem_of_here.
  - exists room'. by split.
Defined.

(** ** Disconnecting *)

Lemma filter_out_twice (a b : string) (ps : list Player) :
  filter (λ player, player_id player ≠ a)
    (filter (λ player, player_id player ≠ b) ps)
  = filter (λ player, player_id player ≠ b)
      (filter (λ player, player_id player ≠ a) ps).
Proof.
  induction ps as [|p ps IH]; [done|].
  rewrite !filter_cons.
  destruct (decide (player_id p ≠ b)), (decide (player_id p ≠ a));
    rewrite ?filter_cons, ?decide_True, ?decide_False by done;
    by rewrite IH.
Qed.

Lemma filter_out_again (a : string) (ps : list Player) :
  filter (λ player, player_id player ≠ a)
    (filter (λ player, player_id player ≠ a) ps)
  = filter (λ player, player_id player ≠ a) ps.
Proof.
  induction ps as [|p ps IH]; [done|].
  rewrite filter_cons.
  destruct (decide (player_id p ≠ a));
    rewrite ?filter_cons, ?decide_True by done; by rewrite IH.
Qed.

Lemma leaveRoom_again socket_id room :
  players (leaveRoom socket_id room) ≠ [] →
  leaveRoom socket_id (leaveRoom socket_id room) = leaveRoom socket_id room.
Proof.
  intros Hne.
  pose proof (leaveRoom_host_differs socket_id room Hne) as Hhost.
  rewrite (leaveRoom_stranger socket_id (leaveRoom socket_id room));
    [|apply leaveRoom_gone|done].
  destruct (leaveRoom socket_id room) as [h ps gs sc] eqn:Hleft.
  simpl. f_equal.
  apply delete_id.
  assert (Hsc : sc = scores (leaveRoom socket_id room)) by (by rewrite Hleft).
  rewrite Hsc. simpl. apply lookup_delete_eq.
Qed.

(** Handling the disconnect of one connection a second time changes
    nothing in the registry. *)
Theorem disconnect_twice (socket_id : string) (gameRooms : gmap string Room) :
  rooms_after (disconnect socket_id
                 (rooms_after (disconnect socket_id gameRooms)))
  = rooms_after (disconnect socket_id gameRooms).
Proof.
  apply map_eq. intros roomCode.
  rewrite (disconnect_lookup socket_id (rooms_after _)).
  rewrite disconnect_lookup.
  destruct (gameRooms !! roomCode) as [room|]; [|done]. simpl.
  unfold keepRoom at 2 3.
  destruct (decide (length (players (leaveRoom socket_id room)) = 0))
    as [|Hlen]; [done|].
  simpl. rewrite leaveRoom_again.
  - unfold keepRoom. by rewrite decide_False.
  - intros Hnil. by rewrite Hnil in Hlen.
Qed.

Lemma leave_both (a b : string) (room : Room) :
  a ≠ b →
  keepRoom (leaveRoom b room) ≫= (λ r, keepRoom (leaveRoom a r))
  = keepRoom (leaveRoom a room) ≫= (λ r, keepRoom (leaveRoom b r)).
Proof.
  intros Hab. destruct room as [h ps gs sc].
  pose proof (filter_out_twice a b ps) as Hcomm.
  unfold keepRoom, leaveRoom. simpl.
  destruct (filter (λ player, player_id player ≠ b) ps) as [|y pb] eqn:Hpb;
    destruct (filter (λ player, player_id player ≠ a) ps) as [|z pa] eqn:Hpa;
    simpl.
  - done.
  - rewrite <- Hcomm. done.
  - rewrite Hcomm. done.
  - rewrite <- Hcomm.
    assert (Hy : player_id y ≠ b).
    { assert (Hin : y ∈ filter (λ player, player_id player ≠ b) ps)
        by (rewrite Hpb; apply list_elem_of_here).
      by apply list_elem_of_filter in Hin as [? _]. }
    assert (Hz : player_id z ≠ a).
    { assert (Hin : z ∈ filter (λ player, player_id player ≠ a) ps)
        by (rewrite Hpa; apply list_elem_of_here).
      by apply list_elem_of_filter in Hin as [? _]. }
    destruct (filter (λ player, player_id player ≠ a) (y :: pb))
      as [|x rest] eqn:Hpab; simpl; [done|].
    assert (Hxy : player_id y ≠ a → x = y).
    { intros Hya. rewrite filter_cons, decide_True in Hpab by done.
      by injection Hpab as ->. }
    assert (Hxz : player_id z ≠ b → x = z).
    { intros Hzb. rewrite filter_cons, decide_True in Hcomm by done.
      by injection Hcomm as ->. }
    f_equal. f_equal; [|apply delete_delete].
    repeat case_decide; subst; try done.
    + by rewrite Hxz.
    + by rewrite Hxy.
Qed.

(** The disconnects of two connections can be handled in either order: the
    registry that results is the same. *)
Theorem disconnects_commute (a b : string) (gameRooms : gmap string Room) :
  rooms_after (disconnect a (rooms_after (disconnect b gameRooms)))
  = rooms_after (disconnect b (rooms_after (disconnect a gameRooms))).
Proof.
  destruct (decide (a = b)) as [->|Hab]; [done|].
  apply map_eq. intros roomCode.
  rewrite (disconnect_lookup a (rooms_after _)).
  rewrite (disconnect_lookup b (rooms_after _)).
  rewrite !disconnect_lookup.
  destruct (gameRooms !! roomCode) as [room|]; [|done]. simpl.
  by apply leave_both.
Qed.

(** A disconnect only removes: every room that is left was there before,
    with the same game state, so what the connection submitted (prompts,
    captions, its vote) stays on record; the players that are left are
    among the earlier ones, in the same order, and no score is added or
    changed. *)
Theorem disconnect_keeps_submissions
    (socket_id roomCode : string) (gameRooms : gmap string Room) (room' : Room) :
  rooms_after (disconnect socket_id gameRooms) !! roomCode = Some room' →
  ∃ room,
    gameRooms !! roomCode = Some room
    ∧ gameState room' = gameState room
    ∧ players room' `sublist_of` players room
    ∧ scores room' ⊆ scores room.
Proof.
  intros Hlook. apply lookup_omap_Some in Hlook as (room & Hkeep & Hroom).
  exists room. split; [done|].
  unfold keepRoom in Hkeep. case_decide; [done|]. injection Hkeep as <-.
  simpl. split; [done|]. split.
  - apply sublist_filter.
  - apply delete_subseteq.
Qed.

(** A player who has voted leaves a room of two. *)
Lemma disconnect_keeps_submissions_witness :
  let gameRooms :=
    run [CreateGame "a" "0.abcdefgh1jk"; JoinGame "a" "ABCDE" "Ann";
         JoinGame "b" "ABCDE" "Bob"; SubmitVote "b" "ABCDE" "a"] ∅ in
  ∃ room',
    rooms_after (disconnect "b" gameRooms) !! "ABCDE" = Some room'
    ∧ votes (gameState room') !! "b" = Some "a"
    ∧ player_ids room' = ["a"].
Proof.
  intros gameRooms.
  set (room' := mkRoom "a" [mkPlayer "a" "Ann"]
                  (mkGameState waiting 1 [] "" [] (<["b" := "a"]> ∅))
                  (<["a" := Num 0]> ∅)).
  assert (Hlook : rooms_after (disconnect "b" gameRooms) !! "ABCDE"
                  = Some room') by (vm_compute; reflexivity).
  destruct (disconnect_keeps_submissions "b" "ABCDE" gameRooms room' Hlook)
    as (room & Hroom & Hgs & _ & _).
  exists room'. split; [exact Hlook|]. split; [|reflexivity].
  rewrite Hgs.
  assert (Hsome : Some room = Some (mkRoom "a"
                    [mkPlayer "a" "Ann"; mkPlayer "b" "Bob"]
                    (mkGameState waiting 1 [] "" [] (<["b" := "a"]> ∅))
                    (<["b" := Num 0]> (<["a" := Num 0]> ∅)))).
  { rewrite <- Hroom. vm_compute. reflexivity. }
  injection Hsome as ->. vm_compute. reflexivity.
Defined.

(** When every player of a room is the connection that disconnects, the
    room is deleted, and whoever asks for it afterwards finds no room:
    [getGameState] does not answer and [joinGame] answers
    "Room not found.". *)
Theorem last_player_closes_room
    (socket_id roomCode asker playerName : string)
    (gameRooms : gmap string Room) (room : Room) :
  gameRooms !! roomCode = Some room →
  Forall (λ player, player_id player = socket_id) (players room) →
  let after := rooms_after (disconnect socket_id gameRooms) in
  after !! roomCode = None
  ∧ ack (getGameState roomCode after) = None
  ∧ joinGame asker roomCode playerName after
    = mkOutcome after [] (Some (AckJoin false (Some "Room not found."))).
Proof.
  intros Hroom Hall after.
  assert (Hgone : after !! roomCode = None).
  { subst after. rewrite disconnect_lookup, Hroom. simpl.
    unfold keepRoom. rewrite decide_True; [done|].
    simpl. induction Hall as [|p ps Hp _ IH]; [done|].
    rewrite filter_cons, decide_False; [done|]. by intros []. }
  split; [done|]. split.
  - by rewrite getGameState_absent.
  - unfold joinGame. by rewrite Hgone.
Qed.

(** The only player of a room leaves. *)
Lemma last_player_closes_room_witness :
  let gameRooms :=
    run [CreateGame "h" "0.abcdefgh1jk"; JoinGame "a" "ABCDE" "Ann"] ∅ in
  ack (getGameState "ABCDE" (rooms_after (disconnect "a" gameRooms))) = None.
Proof.
  intros gameRooms.
  assert (Hroom : gameRooms !! "ABCDE"
                  = Some (mkRoom "h" [mkPlayer "a" "Ann"]
                            (mkGameState waiting 1 [] "" [] ∅)
                            (<["a" := Num 0]> ∅)))
    by (vm_compute; reflexivity).
  destruct (last_player_closes_room "a" "ABCDE" "a" "Ann" gameRooms _ Hroom)
    as (_ & Hget & _).
  - simpl. by repeat constructor.
  - exact Hget.
Defined.


(** ** Votes *)







(** ** Scores along a run *)

Lemma run_scores_match_from reqs : ∀ gameRooms : gmap string Room,
  (∀ code room, gameRooms !! code = Some room → scores_match room) →
  well_voted reqs gameRooms →
  ∀ code room, run reqs gameRooms !! code = Some room → scores_match room.
Proof.
  induction reqs as [|req reqs IH]; intros gameRooms Hinv Hvoted; [done|].
  destruct Hvoted as [Hreq Hrest]. rewrite run_cons.
  apply IH; [|done].
  by apply handle_scores_match.
Qed.

(** From the empty registry the server starts with, as long as every vote
    names a player of its room (at the time of the vote and of every later
    vote in that room), the keys of [scores] are the ids of the players and
    every score is an integer that is not negative, in every room and after
    every request. *)
Theorem scores_match_along_runs (reqs : list Request) :
  well_voted reqs ∅ →
  ∀ code room, run reqs ∅ !! code = Some room → scores_match room.
Proof.
  apply run_scores_match_from. intros code room Hroom.
  by rewrite lookup_empty in Hroom.
Qed.

(** Two players, a tally, and one of them leaves. *)
Lemma scores_match_along_runs_witness :
  let reqs :=
    [CreateGame "a" "0.abcdefgh1jk"; JoinGame "a" "ABCDE" "Ann";
     JoinGame "b" "ABCDE" "Bob"; SubmitVote "a" "ABCDE" "b";
     SubmitVote "b" "ABCDE" "b"; Disconnect "a"] in
  ∃ room,
    run reqs ∅ !! "ABCDE" = Some room
    ∧ scores room = <["b" := Num 1]> ∅
    ∧ scores_match room.
Proof.
  intros reqs.
  eexists. split; [vm_compute; reflexivity|].
  split; [vm_compute; reflexivity|].
  refine (scores_match_along_runs reqs _ "ABCDE" _ _);
    [|vm_compute; reflexivity].
  assert (Hvotes : ∀ (gameRooms : gmap string Room) s v room,
            gameRooms !! "ABCDE" = Some room →
            bool_decide (map_Forall (λ _ t, t ∈ player_ids room)
                           (<[s := v]> (votes (gameState room)))) = true →
            names_players (SubmitVote s "ABCDE" v) gameRooms).
  { intros gameRooms s v room Hroom Hall room0 Hroom0.
    rewrite Hroom in Hroom0. injection Hroom0 as <-.
    apply bool_decide_eq_true in Hall. exact Hall. }
  simpl. repeat split.
  - eapply Hvotes; vm_compute; reflexivity.
  - eapply Hvotes; vm_compute; reflexivity.
Defined.

(** ** Collections and the player count *)

Lemma run_prompts_quiet roomCode subs :
  ∀ (gameRooms : gmap string Room) (room : Room),
  gameRooms !! roomCode = Some room →
  (∀ j, 1 ≤ j ≤ length subs →
     length (prompts (gameState room)) + j ≠ length (players room)) →
  run (promptRequests roomCode subs) gameRooms !! roomCode
  = Some (set_gameState
            (set_prompts
               (prompts (gameState room)
                  ++ ((λ sub, mkPrompt sub.1.1 sub.1.2) <$> subs))
               (gameState room)) room).
Proof.
  induction subs as [|[[s t] k] subs IH]; intros gameRooms room Hroom Hquiet.
  - simpl. rewrite app_nil_r, Hroom. by destruct room as [? ? []].
  - unfold promptRequests. rewrite fmap_cons, run_cons. simpl.
    unfold submitPrompt, withRoom. rewrite Hroom.
    unfold submitPromptRoom.
    rewrite decide_False
      by (rewrite length_app; simpl; apply Hquiet; simpl; lia).
    simpl.
    match goal with
    | |- run _ (<[_ := ?r]> _) !! _ = _ =>
        rewrite (IH (<[roomCode := r]> gameRooms) r)
    end.
    + simpl. by rewrite <- app_assoc.
    + apply lookup_insert_eq.
    + intros j Hj. simpl. rewrite length_app. simpl.
      specialize (Hquiet (S j)). simpl in Hquiet. lia.
Qed.

Lemma run_captions_quiet roomCode subs :
  ∀ (gameRooms : gmap string Room) (room : Room),
  gameRooms !! roomCode = Some room →
  (∀ j, 1 ≤ j ≤ length subs →
     length (captions (gameState room)) + j ≠ length (players room)) →
  run (captionRequests roomCode subs) gameRooms !! roomCode
  = Some (set_gameState
            (set_captions
               (captions (gameState room)
                  ++ ((λ sub, mkCaption sub.1 sub.2) <$> subs))
               (gameState room)) room).
Proof.
  induction subs as [|[s t] subs IH]; intros gameRooms room Hroom Hquiet.
  - simpl. rewrite app_nil_r, Hroom. by destruct room as [? ? []].
  - unfold captionRequests. rewrite fmap_cons, run_cons. simpl.
    unfold submitCaption, withRoom. rewrite Hroom.
    unfold submitCaptionRoom.
    rewrite decide_False
      by (rewrite length_app; simpl; apply Hquiet; simpl; lia).
    simpl.
    match goal with
    | |- run _ (<[_ := ?r]> _) !! _ = _ =>
        rewrite (IH (<[roomCode := r]> gameRooms) r)
    end.
    + simpl. by rewrite <- app_assoc.
    + apply lookup_insert_eq.
    + intros j Hj. simpl. rewrite length_app. simpl.
      specialize (Hquiet (S j)). simpl in Hquiet. lia.
Qed.

Lemma size_insert_ge (vs : gmap string string) s v :
  size vs ≤ size (<[s := v]> vs).
Proof.
  destruct (vs !! s) as [old|] eqn:Hs.
  - by erewrite map_size_insert_Some.
  - rewrite map_size_insert_None by done. lia.
Qed.

Lemma run_votes_overfull roomCode subs :
  ∀ (gameRooms : gmap string Room) (room : Room),
  gameRooms !! roomCode = Some room →
  length (players room) < size (votes (gameState room)) →
  ∃ room',
    run (voteRequests roomCode subs) gameRooms !! roomCode = Some room'
    ∧ phase (gameState room') = phase (gameState room)
    ∧ scores room' = scores room
    ∧ players room' = players room
    ∧ size (votes (gameState room)) ≤ size (votes (gameState room')).
Proof.
  induction subs as [|[s v] subs IH]; intros gameRooms room Hroom Hover.
  - exists room. split; [exact Hroom | done].
  - unfold voteRequests. rewrite fmap_cons, run_cons. simpl.
    unfold submitVote, withRoom. rewrite Hroom.
    unfold submitVoteRoom.
    pose proof (size_insert_ge (votes (gameState room)) s v) as Hge.
    rewrite decide_False by lia. simpl.
    match goal with
    | |- ∃ _, run _ (<[_ := ?r]> _) !! _ = _ ∧ _ =>
        destruct (IH (<[roomCode := r]> gameRooms) r)
          as (room' & Hlook & Hphase & Hscores & Hplayers & Hsize)
    end.
    + apply lookup_insert_eq.
    + simpl. lia.
    + exists room'. simpl in *. repeat split; try done. lia.
Qed.

(** A collection that has outgrown the player count never completes.  When
    a room has at least as many prompts as players, no run of further
    prompts changes its phase or its image; the same holds for captions;
    and when it has more votes than players, no run of further votes changes
    its phase or its scores.  (The player count drops when a player
    disconnects, while the submissions stay.) *)
Theorem overfull_collections_stall
    (roomCode : string) (gameRooms : gmap string Room) (room : Room)
    (promptSubs : list (string * string * nat))
    (captionSubs voteSubs : list (string * string)) :
  gameRooms !! roomCode = Some room →
  let count := length (players room) in
  (count ≤ length (prompts (gameState room)) →
     ∃ room',
       run (promptRequests roomCode promptSubs) gameRooms !! roomCode
         = Some room'
       ∧ phase (gameState room') = phase (gameState room)
       ∧ imageUrl (gameState room') = imageUrl (gameState room))
  ∧ (count ≤ length (captions (gameState room)) →
       phaseOf roomCode (run (captionRequests roomCode captionSubs) gameRooms)
       = Some (phase (gameState room)))
  ∧ (count < size (votes (gameState room)) →
       ∃ room',
         run (voteRequests roomCode voteSubs) gameRooms !! roomCode
           = Some room'
         ∧ phase (gameState room') = phase (gameState room)
         ∧ scores room' = scores room).
Proof.
  intros Hroom count. subst count. split; [|split].
  - intros Hfull. eexists. split.
    + apply run_prompts_quiet; [done|]. intros j Hj. lia.
    + done.
  - intros Hfull. unfold phaseOf.
    rewrite (run_captions_quiet roomCode captionSubs gameRooms room);
      [done | done |]. intros j Hj. lia.
  - intros Hover.
    destruct (run_votes_overfull roomCode voteSubs gameRooms room Hroom Hover)
      as (room' & Hlook & Hphase & Hscores & _).
    by exists room'.
Qed.

(** Two of three players submit prompts and the third leaves: the room has
    two prompts and two players, and further prompts leave it in
    [promptSubmission]. *)
Lemma overfull_collections_stall_witness :
  let gameRooms :=
    run [CreateGame "a" "0.abcdefgh1jk"; JoinGame "a" "ABCDE" "Ann";
         JoinGame "b" "ABCDE" "Bob"; JoinGame "c" "ABCDE" "Cy";
         StartGame "a" "ABCDE";
         SubmitPrompt "a" "ABCDE" "p1" 0; SubmitPrompt "b" "ABCDE" "p2" 0;
         Disconnect "c"] ∅ in
  ∃ room',
    run (promptRequests "ABCDE" [("a", "p3", 0); ("b", "p4", 0)]) gameRooms
      !! "ABCDE" = Some room'
    ∧ phase (gameState room') = promptSubmission.
Proof.
  intros gameRooms.
  assert (Hroom : gameRooms !! "ABCDE"
                  = Some (mkRoom "a" [mkPlayer "a" "Ann"; mkPlayer "b" "Bob"]
                            (mkGameState promptSubmission 1
                               [mkPrompt "a" "p1"; mkPrompt "b" "p2"] "" [] ∅)
                            (<["b" := Num 0]> (<["a" := Num 0]> ∅))))
    by (vm_compute; reflexivity).
  destruct (overfull_collections_stall "ABCDE" gameRooms _
              [("a", "p3", 0); ("b", "p4", 0)] [] [] Hroom)
    as (Hprompts & _ & _).
  destruct Hprompts as (room' & Hlook & Hphase & _); [simpl; lia|].
  exists room'. by split.
Defined.

Lemma run_prompts_completing roomCode subs sub
    (gameRooms : gmap string Room) (room : Room) :
  gameRooms !! roomCode = Some room →
  length (prompts (gameState room)) + length subs + 1
  = length (players room) →
  run (promptRequests roomCode (subs ++ [sub])) gameRooms !! roomCode
  = Some (set_gameState
            (mkGameState captionSubmission (round (gameState room))
               (prompts (gameState room)
                  ++ ((λ sub, mkPrompt sub.1.1 sub.1.2) <$> subs ++ [sub]))
               "https://example.com/generated-image.png"
               (captions (gameState room)) (votes (gameState room)))
            room).
Proof.
  intros Hroom Hcount.
  unfold promptRequests. rewrite fmap_app, run_app.
  pose proof (run_prompts_quiet roomCode subs gameRooms room Hroom) as Hquiet.
  unfold promptRequests in Hquiet.
  destruct sub as [[s t] k]. simpl.
  unfold submitPrompt, withRoom. rewrite Hquiet by (intros j Hj; lia).
  unfold submitPromptRoom. simpl.
  rewrite decide_True by (rewrite !length_app, length_fmap; simpl; lia).
  simpl. rewrite lookup_insert_eq. unfold set_gameState, set_phase. simpl.
  by rewrite fmap_app, app_assoc.
Qed.

Lemma run_captions_completing roomCode subs sub
    (gameRooms : gmap string Room) (room : Room) :
  gameRooms !! roomCode = Some room →
  length (captions (gameState room)) + length subs + 1
  = length (players room) →
  run (captionRequests roomCode (subs ++ [sub])) gameRooms !! roomCode
  = Some (set_gameState
            (set_phase voting
               (set_captions
                  (captions (gameState room)
                     ++ ((λ sub, mkCaption sub.1 sub.2) <$> subs ++ [sub]))
                  (gameState room)))
            room).
Proof.
  intros Hroom Hcount.
  unfold captionRequests. rewrite fmap_app, run_app.
  pose proof (run_captions_quiet roomCode subs gameRooms room Hroom) as Hquiet.
  unfold captionRequests in Hquiet.
  destruct sub as [s t]. simpl.
  unfold submitCaption, withRoom. rewrite Hquiet by (intros j Hj; lia).
  unfold submitCaptionRoom. simpl.
  rewrite decide_True by (rewrite !length_app, length_fmap; simpl; lia).
  simpl. rewrite lookup_insert_eq. unfold set_gameState, set_phase. simpl.
  by rewrite fmap_app, app_assoc.
Qed.

(** Prompts complete exactly at the player count.  While the prompts on
    record, with a run of further ones, stay below the number of players,
    the phase does not move; the prompt that brings them level with the
    players stores the image address and takes the room to
    [captionSubmission], with all prompts on record in the order they came
    in, and players, scores, host, captions and votes as they were. *)
Theorem prompts_complete_at_player_count
    (roomCode : string) (gameRooms : gmap string Room) (room : Room)
    (subs : list (string * string * nat)) (sub : string * string * nat) :
  gameRooms !! roomCode = Some room →
  let count := length (players room) in
  let collected := length (prompts (gameState room)) in
  (collected + length subs < count →
     phaseOf roomCode (run (promptRequests roomCode subs) gameRooms)
     = Some (phase (gameState room)))
  ∧ (collected + length subs + 1 = count →
       run (promptRequests roomCode (subs ++ [sub])) gameRooms !! roomCode
       = Some (mkRoom (host room) (players room)
                 (mkGameState captionSubmission (round (gameState room))
                    (prompts (gameState room)
                       ++ ((λ sub, mkPrompt sub.1.1 sub.1.2)
                             <$> subs ++ [sub]))
                    "https://example.com/generated-image.png"
                    (captions (gameState room)) (votes (gameState room)))
                 (scores room))).
Proof.
  intros Hroom count collected. subst count collected. split.
  - intros Hbelow. unfold phaseOf.
    rewrite (run_prompts_quiet roomCode subs gameRooms room);
      [done | done |]. intros j Hj. lia.
  - intros Hlevel. by rewrite (run_prompts_completing roomCode subs sub _ room).
Qed.

(** Three players, three prompts. *)
Lemma prompts_complete_at_player_count_witness :
  let gameRooms :=
    run [CreateGame "a" "0.abcdefgh1jk"; JoinGame "a" "ABCDE" "Ann";
         JoinGame "b" "ABCDE" "Bob"; JoinGame "c" "ABCDE" "Cy";
         StartGame "a" "ABCDE"] ∅ in
  phaseOf "ABCDE"
    (run (promptRequests "ABCDE" [("a", "p1", 0); ("b", "p2", 1)]) gameRooms)
  = Some promptSubmission
  ∧ phaseOf "ABCDE"
      (run (promptRequests "ABCDE"
              ([("a", "p1", 0); ("b", "p2", 1)] ++ [("c", "p3", 2)]))
         gameRooms)
    = Some captionSubmission.
Proof.
  intros gameRooms.
  assert (Hroom : gameRooms !! "ABCDE"
                  = Some (mkRoom "a"
                            [mkPlayer "a" "Ann"; mkPlayer "b" "Bob";
                             mkPlayer "c" "Cy"]
                            (mkGameState promptSubmission 1 [] "" [] ∅)
                            (<["c" := Num 0]> (<["b" := Num 0]>
                               (<["a" := Num 0]> ∅)))))
    by (vm_compute; reflexivity).
  destruct (prompts_complete_at_player_count "ABCDE" gameRooms _
              [("a", "p1", 0); ("b", "p2", 1)] ("c", "p3", 2) Hroom)
    as [Hbelow Hlevel].
  split.
  - apply Hbelow. simpl. lia.
  - unfold phaseOf. rewrite Hlevel; [reflexivity | simpl; lia].
Defined.

(** Captions complete exactly at the player count, in the same way: below
    it the phase does not move, and the caption that brings the captions
    level with the players takes the room to [voting]. *)
Theorem captions_complete_at_player_count
    (roomCode : string) (gameRooms : gmap string Room) (room : Room)
    (subs : list (string * string)) (sub : string * string) :
  gameRooms !! roomCode = Some room →
  let count := length (players room) in
  let collected := length (captions (gameState room)) in
  (collected + length subs < count →
     phaseOf roomCode (run (captionRequests roomCode subs) gameRooms)
     = Some (phase (gameState room)))
  ∧ (collected + length subs + 1 = count →
       run (captionRequests roomCode (subs ++ [sub])) gameRooms !! roomCode
       = Some (mkRoom (host room) (players room)
                 (mkGameState voting (round (gameState room))
                    (prompts (gameState room)) (imageUrl (gameState room))
                    (captions (gameState room)
                       ++ ((λ sub, mkCaption sub.1 sub.2) <$> subs ++ [sub]))
                    (votes (gameState room)))
                 (scores room))).
Proof.
  intros Hroom count collected. subst count collected. split.
  - intros Hbelow. unfold phaseOf.
    rewrite (run_captions_quiet roomCode subs gameRooms room);
      [done | done |]. intros j Hj. lia.
  - intros Hlevel.
    by rewrite (run_captions_completing roomCode subs sub _ room).
Qed.

(** Two players, two captions. *)
Lemma captions_complete_at_player_count_witness :
  let gameRooms :=
    run [CreateGame "a" "0.abcdefgh1jk"; JoinGame "a" "ABCDE" "Ann";
         JoinGame "b" "ABCDE" "Bob"] ∅ in
  phaseOf "ABCDE" (run (captionRequests "ABCDE" [("a", "c1")]) gameRooms)
  = Some waiting
  ∧ phaseOf "ABCDE"
      (run (captionRequests "ABCDE" ([("a", "c1")] ++ [("b", "c2")]))
         gameRooms)
    = Some voting.
Proof.
  intros gameRooms.
  assert (Hroom : gameRooms !! "ABCDE"
                  = Some (mkRoom "a" [mkPlayer "a" "Ann"; mkPlayer "b" "Bob"]
                            (mkGameState waiting 1 [] "" [] ∅)
                            (<["b" := Num 0]> (<["a" := Num 0]> ∅))))
    by (vm_compute; reflexivity).
  destruct (captions_complete_at_player_count "ABCDE" gameRooms _
              [("a", "c1")] ("b", "c2") Hroom) as [Hbelow Hlevel].
  split.
  - apply Hbelow. simpl. lia.
  - unfold phaseOf. rewrite Hlevel; [reflexivity | simpl; lia].
Defined.

(** ** The next round *)

(** The reset of the [setTimeout] callback opens a round like the first: it
    counts the round up, empties prompts, captions, votes and the image
    address and keeps players, host and scores.  From there, whatever the
    room had collected before, fewer prompts than players leave it in
    [promptSubmission], and the prompt that completes them takes it to
    [captionSubmission]. *)
Theorem reset_opens_next_round
    (roomCode : string) (gameRooms : gmap string Room) (room : Room)
    (subs : list (string * string * nat)) (sub : string * string * nat) :
  let reset := <[roomCode := resetRound room]> gameRooms in
  (length subs < length (players room) →
     run (promptRequests roomCode subs) reset !! roomCode
     = Some (mkRoom (host room) (players room)
               (mkGameState promptSubmission (round (gameState room) + 1)
                  ((λ sub, mkPrompt sub.1.1 sub.1.2) <$> subs) "" [] ∅)
               (scores room)))
  ∧ (length subs + 1 = length (players room) →
       run (promptRequests roomCode (subs ++ [sub])) reset !! roomCode
       = Some (mkRoom (host room) (players room)
                 (mkGameState captionSubmission (round (gameState room) + 1)
                    ((λ sub, mkPrompt sub.1.1 sub.1.2) <$> subs ++ [sub])
                    "https://example.com/generated-image.png" [] ∅)
                 (scores room))).
Proof.
  intros reset.
  assert (Hroom : reset !! roomCode = Some (resetRound room))
    by apply lookup_insert_eq.
  split.
  - intros Hbelow.
    rewrite (run_prompts_quiet roomCode subs reset (resetRound room));
      [done | done |]. simpl. intros j Hj. lia.
  - intros Hlevel.
    by rewrite (run_prompts_completing roomCode subs sub _ (resetRound room)).
Qed.

(** The round after a tally in a room of two. *)
Lemma reset_opens_next_round_witness :
  let room :=
    mkRoom "a" [mkPlayer "a" "Ann"; mkPlayer "b" "Bob"]
      (mkGameState result 1 [mkPrompt "a" "p1"; mkPrompt "b" "p2"]
         "https://example.com/generated-image.png"
         [mkCaption "a" "c1"; mkCaption "b" "c2"]
         (<["b" := "a"]> (<["a" := "b"]> ∅)))
      (<["b" := Num 1]> (<["a" := Num 1]> ∅)) in
  (phase ∘ gameState <$>
     run (promptRequests "ABCDE" ([("a", "q1", 0)] ++ [("b", "q2", 0)]))
       (<["ABCDE" := resetRound room]> ∅) !! "ABCDE")
  = Some captionSubmission.
Proof.
  intros room.
  destruct (reset_opens_next_round "ABCDE" ∅ room [("a", "q1", 0)]
              ("b", "q2", 0)) as [_ Hlevel].
  rewrite Hlevel; [reflexivity | simpl; lia].
Defined.

(** ** Room codes *)

Lemma length_substring (s : string) : ∀ n m,
  String.length (substring n m s) = m `min` (String.length s - n).
Proof.
  induction s as [|c s IH]; intros [|n] [|m]; simpl; try done;
    rewrite IH; lia.
Qed.

Lemma length_toUpperCase (s : string) :
  String.length (toUpperCase s) = String.length s.
Proof. induction s as [|c s IH]; simpl; [done | by rewrite IH]. Qed.

Lemma upper_ascii_twice (c : ascii) : upper_ascii (upper_ascii c) = upper_ascii c.
Proof. destruct c as [[] [] [] [] [] [] [] []]; reflexivity. Qed.

Lemma upper_ascii_codeChar (c : ascii) :
  base36Digit c = true → codeChar (upper_ascii c) = true.
Proof.
  destruct c as [[] [] [] [] [] [] [] []]; vm_compute;
    (reflexivity || discriminate).
Qed.

(** The shape of a room code.  It has the five characters that follow the
    first two of the base-36 string, or as many as that string has there:
    none for the string "0".  Upper-casing it again changes nothing.  When
    those characters are base-36 digits, as [toString(36)] writes them after
    "0.", the code consists of digits and capital letters. *)
Theorem generateRoomCode_shape (random36 : string) :
  String.length (generateRoomCode random36)
  = 5 `min` (String.length random36 - 2)
  ∧ toUpperCase (generateRoomCode random36) = generateRoomCode random36
  ∧ (Forall (λ c, base36Digit c = true)
       (list_ascii_of_string (substring 2 5 random36)) →
     Forall (λ c, codeChar c = true)
       (list_ascii_of_string (generateRoomCode random36))).
Proof.
  unfold generateRoomCode. split; [|split].
  - by rewrite length_toUpperCase, length_substring.
  - induction (substring 2 5 random36) as [|c s IH]; simpl; [done|].
    by rewrite upper_ascii_twice, IH.
  - induction (substring 2 5 random36) as [|c s IH]; simpl; [done|].
    intros Hall. apply Forall_cons in Hall as [Hc Hs].
    apply Forall_cons. split; [by apply upper_ascii_codeChar | by apply IH].
Qed.

(** A code from an ordinary random number. *)
Lemma generateRoomCode_shape_witness :
  Forall (λ c, codeChar c = true)
    (list_ascii_of_string (generateRoomCode "0.4fzyo82mvyr")).
Proof.
  destruct (generateRoomCode_shape "0.4fzyo82mvyr") as (_ & _ & Hchars).
  apply Hchars. simpl. repeat constructor.
Defined.

(** ** The broadcasts of a disconnect *)

(** On every disconnect every room of the registry gets exactly one
    [updatePlayers], with its players minus the connection: also the rooms
    the connection was never in, and those that the disconnect deletes.
    Nothing else is broadcast. *)
Theorem disconnect_broadcasts_everywhere
    (socket_id : string) (gameRooms : gmap string Room) :
  length (emitted (disconnect socket_id gameRooms)) = size gameRooms
  ∧ ∀ ev, ev ∈ emitted (disconnect socket_id gameRooms) ↔
      ∃ roomCode room,
        gameRooms !! roomCode = Some room
        ∧ ev = updatePlayers roomCode
                 (filter (λ player, player_id player ≠ socket_id)
                    (players room)).
Proof.
  simpl. split.
  - by rewrite length_fmap, length_map_to_list.
  - intros ev. rewrite list_elem_of_fmap. split.
    + intros ([roomCode room] & -> & Hin).
      apply elem_of_map_to_list in Hin. by exists roomCode, room.
    + intros (roomCode & room & Hroom & ->).
      exists (roomCode, room). split; [done|].
      by apply elem_of_map_to_list.
Qed.
